(** * The chat widget of static/chat.js

    A shallow embedding of the widget's script: the markdown-lite formatter
    [formatMessage] with the regular expressions it applies, the DOM pieces
    the handlers touch, the elements of the document that a lookup by id
    can find, the conversation history, and the request/response exchange
    of [sendMessage]. *)

From Stdlib Require Import List NArith Arith Bool Ascii String Floats Lia
  DecimalString DecimalN.
Import ListNotations.

Set Implicit Arguments.
Set Warnings "-register-all".

(** ** Strings

    A JavaScript string is a sequence of UTF-16 code units. The patterns of
    the script carry no [u] flag, so they work on code units too. *)

Definition jsstring := list N.

(** An ASCII literal of the script as code units. *)
Definition u (s : string) : jsstring :=
  map N_of_ascii (list_ascii_of_string s).

Definition jsstring_eqb (a b : jsstring) : bool :=
  if list_eq_dec N.eq_dec a b then true else false.

Definition LF : N := 10.
Definition ASTERISK : N := 42.
Definition HYPHEN : N := 45.
Definition BACKTICK : N := 96.

(** LineTerminator: LF, CR, LS, PS. *)
Definition is_line_terminator (c : N) : bool :=
  (c =? 10)%N || (c =? 13)%N || (c =? 8232)%N || (c =? 8233)%N.

(** WhiteSpace and LineTerminator together: what [\s] matches and what
    [String.prototype.trim] strips. *)
Definition is_space (c : N) : bool :=
  (c =? 9)%N || (c =? 11)%N || (c =? 12)%N || (c =? 32)%N || (c =? 160)%N
  || (c =? 5760)%N || ((8192 <=? c)%N && (c <=? 8202)%N)
  || (c =? 8239)%N || (c =? 8287)%N || (c =? 12288)%N || (c =? 65279)%N
  || is_line_terminator c.

Fixpoint drop_space (s : jsstring) : jsstring :=
  match s with
  | c :: t => if is_space c then drop_space t else s
  | [] => []
  end.

(** [String.prototype.trim]. *)
Definition trim (s : jsstring) : jsstring :=
  rev (drop_space (rev (drop_space s))).

(** ** Regular expressions

    The fragment of the pattern language the script uses: single code unit
    atoms, each matched once or under a greedy or lazy quantifier, and one
    capturing group. *)

Inductive atom :=
| Lit (c : N)          (* an escaped or plain character *)
| AnyChar              (* . *)
| SpaceChar            (* \s *)
| NotLit (c : N).      (* [^c] *)

Definition atom_matches (a : atom) (c : N) : bool :=
  match a with
  | Lit x => (c =? x)%N
  | AnyChar => negb (is_line_terminator c)
  | SpaceChar => is_space c
  | NotLit x => negb (c =? x)%N
  end.

Inductive quant := Once | StarGreedy | StarLazy | PlusGreedy.

Inductive node :=
| Term (a : atom) (q : quant)
| GroupOpen
| GroupClose.

Definition regex := list node.

(** A match in progress: index reached, and the bounds of group 1. *)
Definition mresult := (nat * (nat * nat))%type.

Section Quantifiers.
Variable p : N -> bool.
Variable k : jsstring -> nat -> option mresult.

(** Greedy [*]: take as many code units as match, then give back one at
    a time until the rest of the pattern matches. *)
Fixpoint star_greedy (s : jsstring) (i : nat) : option mresult :=
  match s with
  | c :: s' =>
      if p c then
        match star_greedy s' (S i) with
        | Some m => Some m
        | None => k s i
        end
      else k s i
  | [] => k [] i
  end.

(** Lazy [*?]: try the rest of the pattern first, take one more code
    unit only when that fails. *)
Fixpoint star_lazy (s : jsstring) (i : nat) : option mresult :=
  match k s i with
  | Some m => Some m
  | None =>
      match s with
      | c :: s' => if p c then star_lazy s' (S i) else None
      | [] => None
      end
  end.
End Quantifiers.

(** Backtracking matcher, anchored where [s] starts; [i] counts the code
    units consumed so far, [opened] is where group 1 was entered. *)
Fixpoint run (r : regex) (s : jsstring) (i : nat) (opened : nat)
         (cap : nat * nat) : option mresult :=
  match r with
  | [] => Some (i, cap)
  | GroupOpen :: r' => run r' s i i cap
  | GroupClose :: r' => run r' s i opened (opened, i)
  | Term a Once :: r' =>
      match s with
      | c :: s' => if atom_matches a c then run r' s' (S i) opened cap else None
      | [] => None
      end
  | Term a StarGreedy :: r' =>
      star_greedy (atom_matches a) (fun s' j => run r' s' j opened cap) s i
  | Term a StarLazy :: r' =>
      star_lazy (atom_matches a) (fun s' j => run r' s' j opened cap) s i
  | Term a PlusGreedy :: r' =>
      match s with
      | c :: s' =>
          if atom_matches a c then
            star_greedy (atom_matches a) (fun s' j => run r' s' j opened cap)
                        s' (S i)
          else None
      | [] => None
      end
  end.

(** A match attempt at the start of [s]: length of the match and bounds of
    group 1. *)
Definition exec (r : regex) (s : jsstring) : option mresult :=
  run r s 0 0 (0, 0).

Definition capture (s : jsstring) (g : nat * nat) : jsstring :=
  firstn (snd g - fst g) (skipn (fst g) s).

(** Replacement strings: literal text and [$1]. *)
Inductive tpart := TText (t : jsstring) | TGroup1.

Definition template := list tpart.

Definition expand (tpl : template) (g1 : jsstring) : jsstring :=
  flat_map (fun p => match p with TText t => t | TGroup1 => g1 end) tpl.

(** [String.prototype.replace] with a global pattern: the string is scanned
    left to right; where the pattern matches, the expanded template is
    emitted and the scan resumes after the match (one code unit further
    when the match is empty); other code units are copied. [skip] counts
    the code units of the last match still to pass over. *)
Fixpoint replace_from (r : regex) (tpl : template) (skip : nat)
         (s : jsstring) : jsstring :=
  match s with
  | [] =>
      match skip, exec r [] with
      | O, Some (_, g) => expand tpl (capture [] g)
      | _, _ => []
      end
  | c :: t =>
      match skip with
      | S n => replace_from r tpl n t
      | O =>
          match exec r s with
          | Some (len, g) =>
              expand tpl (capture s g) ++
              match len with
              | O => c :: replace_from r tpl 0 t
              | S n => replace_from r tpl n t
              end
          | None => c :: replace_from r tpl 0 t
          end
      end
  end.

Definition replace (r : regex) (tpl : template) (s : jsstring) : jsstring :=
  replace_from r tpl 0 s.

(** ** The markdown-lite formatter *)

(** [/\*\*(.*?)\*\*/g] *)
Definition bold_re : regex :=
  [Term (Lit ASTERISK) Once; Term (Lit ASTERISK) Once;
   GroupOpen; Term AnyChar StarLazy; GroupClose;
   Term (Lit ASTERISK) Once; Term (Lit ASTERISK) Once].

(** [/\*(.*?)\*/g] *)
Definition em_re : regex :=
  [Term (Lit ASTERISK) Once;
   GroupOpen; Term AnyChar StarLazy; GroupClose;
   Term (Lit ASTERISK) Once].

(** [/`([^`]+)`/g] *)
Definition code_re : regex :=
  [Term (Lit BACKTICK) Once;
   GroupOpen; Term (NotLit BACKTICK) PlusGreedy; GroupClose;
   Term (Lit BACKTICK) Once].

(** [/\n\s*-\s/g] *)
Definition bullet_re : regex :=
  [Term (Lit LF) Once; Term SpaceChar StarGreedy;
   Term (Lit HYPHEN) Once; Term SpaceChar Once].

(** [/\n/g] *)
Definition newline_re : regex := [Term (Lit LF) Once].

Definition bold_tpl : template :=
  [TText (u "<strong>"); TGroup1; TText (u "</strong>")].

Definition em_tpl : template :=
  [TText (u "<em>"); TGroup1; TText (u "</em>")].

Definition code_tpl : template :=
  [TText (u "<code>"); TGroup1; TText (u "</code>")].

(** The glyph of the bullet replacement as the source file stores it: the
    three characters U+00E2 U+20AC U+00A2. *)
Definition bullet_glyph : jsstring := [226; 8364; 162]%N.

(** The replacement text of the bullet substitution: [<br>], the glyph, a
    space. *)
Definition bullet_markup : jsstring := u "<br>" ++ bullet_glyph ++ u " ".

Definition bullet_tpl : template := [TText bullet_markup].

Definition br_tpl : template := [TText (u "<br>")].

Definition formatMessage (text : jsstring) : jsstring :=
  replace newline_re br_tpl
    (replace bullet_re bullet_tpl
       (replace code_re code_tpl
          (replace em_re em_tpl
             (replace bold_re bold_tpl text)))).

(** The bullet character U+2022. *)
Definition BULLET : N := 8226.

(** ** Values and JSON documents *)

(** The values a parsed response can hold, and [undefined]. The names of
    an object are distinct. *)
Inductive jsval :=
| VUndefined
| VNull
| VBool (b : bool)
| VNum (x : float)
| VStr (s : jsstring)
| VArr (items : list jsval)
| VObj (props : list (jsstring * jsval)).

(** A JSON document, as a tree: what the text written by [JSON.stringify]
    denotes. *)
Inductive json :=
| JNull
| JBool (b : bool)
| JNum (x : float)
| JStr (s : jsstring)
| JArr (items : list json)
| JObj (members : list (jsstring * json)).

(** [JSON.stringify]: [undefined] has no serialization; inside an array it
    is written [null], as a property value the property is left out. A
    number that is not finite is written [null], and both zeros are
    written [0]. *)
Fixpoint JSON_stringify (v : jsval) : option json :=
  match v with
  | VUndefined => None
  | VNull => Some JNull
  | VBool b => Some (JBool b)
  | VNum x =>
      Some (if is_finite x
            then JNum (if PrimFloat.eqb x PrimFloat.zero then PrimFloat.zero
                       else x)
            else JNull)
  | VStr s => Some (JStr s)
  | VArr items =>
      Some (JArr (map (fun x => match JSON_stringify x with
                                | Some j => j
                                | None => JNull
                                end) items))
  | VObj props =>
      Some (JObj (flat_map (fun kv => match JSON_stringify (snd kv) with
                                      | Some j => [(fst kv, j)]
                                      | None => []
                                      end) props))
  end.

Fixpoint lookup (key : jsstring) (props : list (jsstring * jsval))
  : option jsval :=
  match props with
  | (k, v) :: rest => if jsstring_eqb k key then Some v else lookup key rest
  | [] => None
  end.

Inductive error :=
| NetworkFailure     (* fetch rejected *)
| BodySyntaxError    (* response.json() rejected *)
| TypeError.         (* raised while the response callback runs *)

Inductive result (A : Type) :=
| Ok (a : A)
| Throw (e : error).

Arguments Ok {A} a.
Arguments Throw {A} e.

(** [data.response]: reading a property of [null] or [undefined] raises;
    a primitive or an array has no such property; an object yields the
    property, or [undefined] without it. *)
Definition get_response (data : jsval) : result jsval :=
  match data with
  | VUndefined | VNull => Throw TypeError
  | VObj props =>
      match lookup (u "response") props with
      | Some v => Ok v
      | None => Ok VUndefined
      end
  | _ => Ok VUndefined
  end.

(** [formatMessage(text)] on an arbitrary value: [text.replace] is a
    function for a string only, the call raises for anything else. *)
Definition formatMessage_of (text : jsval) : result jsstring :=
  match text with
  | VStr s => Ok (formatMessage s)
  | _ => Throw TypeError
  end.

(** ** Conversation history *)

Record turn := { role : jsstring; parts : list jsval }.

Definition turn_value (t : turn) : jsval :=
  VObj [(u "role", VStr (role t)); (u "parts", VArr (parts t))].

Definition history_value (h : list turn) : jsval := VArr (map turn_value h).

(** ** The document and the widget state *)

Inductive content :=
| TextContent (t : jsstring)    (* set through textContent: plain text *)
| InnerHTML (h : jsstring).     (* set through innerHTML: markup *)

(** A child of [chatMessages]: the message [div] with its class list and
    id, and the content of its [message-content] child. Markup set through
    [innerHTML] is kept as text; [removed] lists the ids whose first
    carrier inside the content has been taken out of the document since,
    oldest first. *)
Record entry := {
  classList : list jsstring;
  elem_id : option jsstring;
  inner : content;
  removed : list jsstring
}.

(** The elements of the document that [getElementById] can find: an
    element that carries an id, with the id-carrying elements below it in
    tree order. An element without id is left out, its children stand in
    its place. [Slot] is the place of the children of [chat-messages] in
    the host page. *)
Inductive element :=
| Slot
| El (id : jsstring) (below : list element).

(** An element whose id attribute is [i] is found under [id]: the empty
    string is no id, [getElementById] finds nothing under it. *)
Definition same_id (i id : jsstring) : bool :=
  match id with
  | [] => false
  | _ => jsstring_eqb i id
  end.

(** The outcome of looking for the first element with an id, in tree
    order. *)
Inductive hit :=
| Cut (rest : list element)  (* an element carries it: the forest without it *)
| AtSlot                     (* the transcript comes first and holds a carrier *)
| Miss.

(** [t] tells whether the transcript holds an element with the id. *)
Fixpoint search_node (id : jsstring) (t : bool) (n : element) : hit :=
  match n with
  | Slot => if t then AtSlot else Miss
  | El i below =>
      if same_id i id then Cut []
      else match (fix search_list (l : list element) : hit :=
                    match l with
                    | [] => Miss
                    | c :: rest =>
                        match search_node id t c with
                        | Cut r => Cut (r ++ rest)
                        | AtSlot => AtSlot
                        | Miss => match search_list rest with
                                  | Cut r => Cut (c :: r)
                                  | h => h
                                  end
                        end
                    end) below with
           | Cut b => Cut [El i b]
           | h => h
           end
  end.

Fixpoint search (id : jsstring) (t : bool) (l : list element) : hit :=
  match l with
  | [] => Miss
  | c :: rest =>
      match search_node id t c with
      | Cut r => Cut (r ++ rest)
      | AtSlot => AtSlot
      | Miss => match search id t rest with
                | Cut r => Cut (c :: r)
                | h => h
                end
      end
  end.

(** Inside the content of an entry: is there an element with the id, and
    the content without the first one. *)
Definition holds (id : jsstring) (f : list element) : bool :=
  match search id false f with Cut _ => true | _ => false end.

Definition cut (id : jsstring) (f : list element) : list element :=
  match search id false f with Cut r => r | _ => f end.

Record request := {
  url : jsstring;
  method : jsstring;
  headers : list (jsstring * jsstring);
  body : option json
}.

Record widget := {
  chatWindow : list jsstring;   (* chatWindow.classList *)
  icon : list jsstring;         (* classList of the <i> inside maxBtn *)
  chatInput : jsstring;         (* chatInput.value *)
  inputFocused : bool;          (* chatInput holds the focus *)
  chatMessages : list entry;    (* children of chatMessages *)
  scrollTop : nat;              (* entries scrolled to; scrollHeight is their number *)
  chatHistory : list turn;
  requests : list request;      (* the fetch calls issued, oldest first *)
  pending : list jsstring;      (* loadingId held by each unsettled promise chain *)
  console : list (jsstring * error);
  page : list element;             (* the host page around the transcript *)
  markup_ids : jsstring -> list element
    (* the HTML parser of the browser: the id-carrying elements that
       assigning the markup to innerHTML creates *)
}.

(** DOMTokenList *)
Definition contains (token : jsstring) (l : list jsstring) : bool :=
  existsb (jsstring_eqb token) l.

Definition add (token : jsstring) (l : list jsstring) : list jsstring :=
  if contains token l then l else l ++ [token].

Definition remove (token : jsstring) (l : list jsstring) : list jsstring :=
  filter (fun x => negb (jsstring_eqb token x)) l.

Definition toggle (token : jsstring) (l : list jsstring) : list jsstring :=
  if contains token l then remove token l else l ++ [token].

(** State with exceptions: a raised error keeps the changes made so far. *)
Definition M (A : Type) := widget -> result A * widget.

Definition ret {A} (a : A) : M A := fun w => (Ok a, w).

Definition bind {A B} (c : M A) (k : A -> M B) : M B :=
  fun w => match c w with
           | (Ok a, w') => k a w'
           | (Throw e, w') => (Throw e, w')
           end.

Definition lift {A} (r : result A) : M A := fun w => (r, w).

Definition get : M widget := fun w => (Ok w, w).

Definition modify (f : widget -> widget) : M unit := fun w => (Ok tt, f w).

(** [c.catch(h)] *)
Definition catch (c : M unit) (h : error -> M unit) : M unit :=
  fun w => match c w with
           | (Ok a, w') => (Ok a, w')
           | (Throw e, w') => h e w'
           end.

Declare Scope widget_scope.
Delimit Scope widget_scope with widget.

Notation "x <- c ;; k" := (bind c (fun x => k))
  (at level 61, c at next level, right associativity) : widget_scope.
Notation "c ;; k" := (bind c (fun _ => k))
  (at level 61, right associativity) : widget_scope.

Open Scope widget_scope.

Definition set_chatWindow (l : list jsstring) (w : widget) : widget :=
  {| chatWindow := l; icon := icon w; chatInput := chatInput w;
     inputFocused := inputFocused w; chatMessages := chatMessages w;
     scrollTop := scrollTop w; chatHistory := chatHistory w;
     requests := requests w; pending := pending w; console := console w;
     page := page w; markup_ids := markup_ids w |}.

Definition set_icon (l : list jsstring) (w : widget) : widget :=
  {| chatWindow := chatWindow w; icon := l; chatInput := chatInput w;
     inputFocused := inputFocused w; chatMessages := chatMessages w;
     scrollTop := scrollTop w; chatHistory := chatHistory w;
     requests := requests w; pending := pending w; console := console w;
     page := page w; markup_ids := markup_ids w |}.

Definition set_chatInput (v : jsstring) (w : widget) : widget :=
  {| chatWindow := chatWindow w; icon := icon w; chatInput := v;
     inputFocused := inputFocused w; chatMessages := chatMessages w;
     scrollTop := scrollTop w; chatHistory := chatHistory w;
     requests := requests w; pending := pending w; console := console w;
     page := page w; markup_ids := markup_ids w |}.

Definition set_inputFocused (b : bool) (w : widget) : widget :=
  {| chatWindow := chatWindow w; icon := icon w; chatInput := chatInput w;
     inputFocused := b; chatMessages := chatMessages w;
     scrollTop := scrollTop w; chatHistory := chatHistory w;
     requests := requests w; pending := pending w; console := console w;
     page := page w; markup_ids := markup_ids w |}.

Definition set_chatMessages (l : list entry) (w : widget) : widget :=
  {| chatWindow := chatWindow w; icon := icon w; chatInput := chatInput w;
     inputFocused := inputFocused w; chatMessages := l;
     scrollTop := scrollTop w; chatHistory := chatHistory w;
     requests := requests w; pending := pending w; console := console w;
     page := page w; markup_ids := markup_ids w |}.

Definition set_scrollTop (n : nat) (w : widget) : widget :=
  {| chatWindow := chatWindow w; icon := icon w; chatInput := chatInput w;
     inputFocused := inputFocused w; chatMessages := chatMessages w;
     scrollTop := n; chatHistory := chatHistory w;
     requests := requests w; pending := pending w; console := console w;
     page := page w; markup_ids := markup_ids w |}.

Definition set_chatHistory (h : list turn) (w : widget) : widget :=
  {| chatWindow := chatWindow w; icon := icon w; chatInput := chatInput w;
     inputFocused := inputFocused w; chatMessages := chatMessages w;
     scrollTop := scrollTop w; chatHistory := h;
     requests := requests w; pending := pending w; console := console w;
     page := page w; markup_ids := markup_ids w |}.

Definition set_requests (l : list request) (w : widget) : widget :=
  {| chatWindow := chatWindow w; icon := icon w; chatInput := chatInput w;
     inputFocused := inputFocused w; chatMessages := chatMessages w;
     scrollTop := scrollTop w; chatHistory := chatHistory w;
     requests := l; pending := pending w; console := console w;
     page := page w; markup_ids := markup_ids w |}.

Definition set_pending (l : list jsstring) (w : widget) : widget :=
  {| chatWindow := chatWindow w; icon := icon w; chatInput := chatInput w;
     inputFocused := inputFocused w; chatMessages := chatMessages w;
     scrollTop := scrollTop w; chatHistory := chatHistory w;
     requests := requests w; pending := l; console := console w;
     page := page w; markup_ids := markup_ids w |}.

Definition set_console (l : list (jsstring * error)) (w : widget) : widget :=
  {| chatWindow := chatWindow w; icon := icon w; chatInput := chatInput w;
     inputFocused := inputFocused w; chatMessages := chatMessages w;
     scrollTop := scrollTop w; chatHistory := chatHistory w;
     requests := requests w; pending := pending w; console := l;
     page := page w; markup_ids := markup_ids w |}.

Definition set_page (p : list element) (w : widget) : widget :=
  {| chatWindow := chatWindow w; icon := icon w; chatInput := chatInput w;
     inputFocused := inputFocused w; chatMessages := chatMessages w;
     scrollTop := scrollTop w; chatHistory := chatHistory w;
     requests := requests w; pending := pending w; console := console w;
     page := p; markup_ids := markup_ids w |}.

Definition set_removed (l : list jsstring) (e : entry) : entry :=
  {| classList := classList e; elem_id := elem_id e; inner := inner e;
     removed := l |}.

(** ** The functions of the script *)

Definition scrollToBottom : M unit :=
  modify (fun w => set_scrollTop (List.length (chatMessages w)) w).

Definition appendChild (e : entry) : M unit :=
  modify (fun w => set_chatMessages (chatMessages w ++ [e]) w).

Definition addMessage (text sender : jsstring) (isHtml : bool) : M entry :=
  let messageDiv :=
    {| classList := [u "message"; sender ++ u "-message"];
       elem_id := None;
       inner := if isHtml then InnerHTML text else TextContent text;
       removed := [] |} in
  appendChild messageDiv ;;
  scrollToBottom ;;
  ret messageDiv.

(** Decimal notation of a time stamp. *)
Definition Number_toString (n : N) : jsstring :=
  u (NilEmpty.string_of_uint (N.to_uint n)).

Definition QUOTE : N := 34.

(** The markup of the typing indicator. *)
Definition typing_indicator : jsstring :=
  u "<div class=" ++ [QUOTE] ++ u "typing-indicator" ++ [QUOTE]
    ++ u "><span></span><span></span><span></span></div>".

(** [now] is the value [Date.now()] returns. *)
Definition addLoading (now : N) : M jsstring :=
  let id := u "loading-" ++ Number_toString now in
  let messageDiv :=
    {| classList := [u "message"; u "bot-message"; u "loading-msg"];
       elem_id := Some id;
       inner := InnerHTML typing_indicator;
       removed := [] |} in
  appendChild messageDiv ;;
  scrollToBottom ;;
  ret id.

Definition has_id (id : jsstring) (e : entry) : bool :=
  match elem_id e with
  | Some i => same_id i id
  | None => false
  end.

Definition LESS_THAN : N := 60.

(** The id-carrying elements that [innerHTML = h] creates. Two facts about
    the parser are fixed: markup without [<] creates no element, and the
    markup of the typing indicator, which has no id attribute, creates none
    that carries an id. For any other markup the parser of the browser
    decides. *)
Definition element_ids (parse : jsstring -> list element) (h : jsstring)
  : list element :=
  if jsstring_eqb h typing_indicator
     || forallb (fun c => negb (c =? LESS_THAN)%N) h
  then [] else parse h.

(** The id-carrying elements inside the content of an entry, now. *)
Definition dom (parse : jsstring -> list element) (e : entry) : list element :=
  match inner e with
  | TextContent _ => []
  | InnerHTML h =>
      fold_left (fun f id => cut id f) (removed e) (element_ids parse h)
  end.

(** The entry or an element inside its content carries the id. *)
Definition entry_holds (parse : jsstring -> list element) (id : jsstring)
  (e : entry) : bool :=
  has_id id e || holds id (dom parse e).

(** The transcript without its first element that carries [id], in tree
    order: an entry that carries it goes as a whole, an element inside the
    content of an entry goes from that content. *)
Fixpoint remove_first (parse : jsstring -> list element) (id : jsstring)
  (l : list entry) : list entry :=
  match l with
  | e :: rest =>
      if has_id id e then rest
      else if holds id (dom parse e)
           then set_removed (removed e ++ [id]) e :: rest
           else e :: remove_first parse id rest
  | [] => []
  end.

(** [document.getElementById(id)] followed by [el.remove()] when an element
    was found: the first element with the id in the tree order of the whole
    document is detached, be it an element of the host page (with all that
    is below it), an entry of the transcript or an element inside an entry.
    A transcript whose place has left the page is no longer searched. *)
Definition detach (id : jsstring) (w : widget) : widget :=
  let parse := markup_ids w in
  match search id (existsb (entry_holds parse id) (chatMessages w)) (page w)
  with
  | Cut p => set_page p w
  | AtSlot => set_chatMessages (remove_first parse id (chatMessages w)) w
  | Miss => w
  end.

Definition removeLoading (id : jsstring) : M unit := modify (detach id).

Definition push_history (t : turn) : M unit :=
  modify (fun w => set_chatHistory (chatHistory w ++ [t]) w).

Definition console_error (label : jsstring) (e : error) : M unit :=
  modify (fun w => set_console (console w ++ [(label, e)]) w).

(** [fetch(...)] followed by [.then(...).then(...).catch(...)]: the request
    leaves, and the chain waits with the [loadingId] its callbacks close
    over. *)
Definition fetch (r : request) (loadingId : jsstring) : M unit :=
  modify (fun w => set_pending (pending w ++ [loadingId])
                     (set_requests (requests w ++ [r]) w)).

Definition is_empty (s : jsstring) : bool :=
  match s with [] => true | _ => false end.

Definition apology : jsstring :=
  u "Sorry, something went wrong. Please try again.".

Definition sendMessage (now : N) : M unit :=
  w <- get ;;
  let message := trim (chatInput w) in
  if is_empty message then ret tt else
  addMessage message (u "user") false ;;
  modify (set_chatInput []) ;;
  push_history {| role := u "user"; parts := [VStr message] |} ;;
  loadingId <- addLoading now ;;
  w' <- get ;;
  fetch {| url := u "/chat";
           method := u "POST";
           headers := [(u "Content-Type", u "application/json")];
           body := JSON_stringify
                     (VObj [(u "message", VStr message);
                            (u "history", history_value (chatHistory w'))]) |}
        loadingId.

(** The callback of [.then(data => ...)]. *)
Definition on_data (loadingId : jsstring) (data : jsval) : M unit :=
  removeLoading loadingId ;;
  responseText <- lift (get_response data) ;;
  push_history {| role := u "model"; parts := [responseText] |} ;;
  formatted <- lift (formatMessage_of responseText) ;;
  addMessage formatted (u "bot") true ;;
  ret tt.

(** The callback of [.catch(error => ...)]. *)
Definition on_error (loadingId : jsstring) (e : error) : M unit :=
  removeLoading loadingId ;;
  addMessage apology (u "bot") false ;;
  console_error (u "Error:") e.

(** How the remote call ends: [fetch] rejects, [response.json()] rejects,
    or the body parses to [data]. *)
Inductive outcome :=
| FetchRejects
| JsonRejects
| JsonParsed (data : jsval).

(** The promise chain of one exchange once the call has ended. *)
Definition settle (loadingId : jsstring) (o : outcome) : M unit :=
  match o with
  | FetchRejects => on_error loadingId NetworkFailure
  | JsonRejects => on_error loadingId BodySyntaxError
  | JsonParsed data => catch (on_data loadingId data) (on_error loadingId)
  end.

(** The click handler of [chatBubble]. *)
Definition bubble_click : M unit :=
  modify (fun w => set_chatWindow (toggle (u "d-none") (chatWindow w)) w) ;;
  w <- get ;;
  if negb (contains (u "d-none") (chatWindow w)) then
    modify (set_inputFocused true) ;;
    scrollToBottom
  else ret tt.

(** The click handler of [closeChatBtn]. *)
Definition close_click : M unit :=
  modify (fun w => set_chatWindow (add (u "d-none") (chatWindow w)) w).

(** The click handler of [maxBtn]. *)
Definition max_click : M unit :=
  modify (fun w => set_chatWindow (toggle (u "maximized") (chatWindow w)) w) ;;
  w <- get ;;
  if contains (u "maximized") (chatWindow w) then
    modify (fun w => set_icon (remove (u "bi-arrows-fullscreen") (icon w)) w) ;;
    modify (fun w => set_icon (add (u "bi-fullscreen-exit") (icon w)) w)
  else
    modify (fun w => set_icon (remove (u "bi-fullscreen-exit") (icon w)) w) ;;
    modify (fun w => set_icon (add (u "bi-arrows-fullscreen") (icon w)) w).

(** The keypress handler of [chatInput]. *)
Definition input_keypress (key : jsstring) (now : N) : M unit :=
  if jsstring_eqb key (u "Enter") then sendMessage now else ret tt.

(** ** The event loop *)

Inductive event :=
| BubbleClick
| CloseClick
| MaxClick
| SendClick (now : N)
| Keypress (key : jsstring) (now : N)
| Edit (value : jsstring)          (* the user changes the input field *)
| Blur                             (* the focus leaves the input field *)
| Settled (n : nat) (o : outcome). (* the call of pending chain [n] ends *)

Definition exec_handler (h : M unit) (w : widget) : widget := snd (h w).

Fixpoint remove_nth {A} (n : nat) (l : list A) : list A :=
  match l, n with
  | [], _ => []
  | _ :: t, O => t
  | x :: t, S m => x :: remove_nth m t
  end.

Definition step (e : event) (w : widget) : widget :=
  match e with
  | BubbleClick => exec_handler bubble_click w
  | CloseClick => exec_handler close_click w
  | MaxClick => exec_handler max_click w
  | SendClick now => exec_handler (sendMessage now) w
  | Keypress key now => exec_handler (input_keypress key now) w
  | Edit value => set_chatInput value w
  | Blur => set_inputFocused false w
  | Settled n o =>
      match nth_error (pending w) n with
      | Some loadingId =>
          exec_handler (settle loadingId o)
                       (set_pending (remove_nth n (pending w)) w)
      | None => w
      end
  end.

Definition run_events (es : list event) (w : widget) : widget :=
  fold_left (fun w e => step e w) es w.

(** The page as the script finds it when it starts. *)
Record host := {
  host_window : list jsstring;   (* classes of the panel *)
  host_input : jsstring;
  host_focus : bool;
  host_messages : list entry;
  host_scroll : nat;
  host_page : list element;         (* the elements with an id around the transcript *)
  host_parser : jsstring -> list element
}.

(** The state after the [DOMContentLoaded] handler has run. *)
Definition init (h : host) : widget :=
  {| chatWindow := host_window h;
     icon := [u "bi"; u "bi-arrows-fullscreen"];
     chatInput := host_input h;
     inputFocused := host_focus h;
     chatMessages := host_messages h;
     scrollTop := host_scroll h;
     chatHistory := [];
     requests := [];
     pending := [];
     console := [];
     page := host_page h;
     markup_ids := host_parser h |}.

(** ** Vocabulary of the statements *)

Definition user_turn (m : jsstring) : turn :=
  {| role := u "user"; parts := [VStr m] |}.

Definition model_turn (v : jsval) : turn :=
  {| role := u "model"; parts := [v] |}.

Definition loading_id (now : N) : jsstring :=
  u "loading-" ++ Number_toString now.

Definition user_entry (m : jsstring) : entry :=
  {| classList := [u "message"; u "user-message"];
     elem_id := None;
     inner := TextContent m;
     removed := [] |}.

Definition bot_entry (html : jsstring) : entry :=
  {| classList := [u "message"; u "bot-message"];
     elem_id := None;
     inner := InnerHTML html;
     removed := [] |}.

Definition apology_entry : entry :=
  {| classList := [u "message"; u "bot-message"];
     elem_id := None;
     inner := TextContent apology;
     removed := [] |}.

Definition placeholder (now : N) : entry :=
  {| classList := [u "message"; u "bot-message"; u "loading-msg"];
     elem_id := Some (loading_id now);
     inner := InnerHTML typing_indicator;
     removed := [] |}.

(** The JSON form of a history turn: an object with [role] and [parts]. *)
Definition value_json (v : jsval) : json :=
  match JSON_stringify v with
  | Some j => j
  | None => JNull
  end.

Definition turn_json (t : turn) : json :=
  JObj [(u "role", JStr (role t));
        (u "parts", JArr (map value_json (parts t)))].

(** A turn as the history is meant to hold them. *)
Definition wf_turn (t : turn) : Prop :=
  (role t = u "user" \/ role t = u "model") /\ List.length (parts t) = 1.

(** The history of [w'] is the history of [w] with well-formed turns added
    at its end. *)
Definition grows (w w' : widget) : Prop :=
  exists added,
    chatHistory w' = chatHistory w ++ added /\ Forall wf_turn added.

Definition isOpen (w : widget) : bool :=
  negb (contains (u "d-none") (chatWindow w)).

Definition isMaximized (w : widget) : bool :=
  contains (u "maximized") (chatWindow w).

(** The icon shows the glyph that belongs to the layout. *)
Definition glyph_matches (w : widget) : bool :=
  if isMaximized w
  then contains (u "bi-fullscreen-exit") (icon w)
       && negb (contains (u "bi-arrows-fullscreen") (icon w))
  else contains (u "bi-arrows-fullscreen") (icon w)
       && negb (contains (u "bi-fullscreen-exit") (icon w)).

(** Two class lists hold the same tokens. *)
Definition same_tokens (l l' : list jsstring) : Prop :=
  forall t, contains t l = contains t l'.

(** The states the widget reaches on a page whose panel is not maximized
    when the script starts. *)
Inductive reachable : widget -> Prop :=
| reach_init h :
    contains (u "maximized") (host_window h) = false -> reachable (init h)
| reach_step e w : reachable w -> reachable (step e w).

(** No atom of the pattern matches the code unit [x]. *)
Definition avoids (x : N) (r : regex) : Prop :=
  Forall (fun n => match n with
                   | Term a _ => atom_matches a x = false
                   | _ => True
                   end) r.

Definition no_backtick (s : jsstring) : bool :=
  forallb (fun c => negb (c =? BACKTICK)%N) s.

(** What the last substitution makes of one code unit. *)
Definition break_unit (c : N) : jsstring :=
  if (c =? LF)%N then u "<br>" else [c].

(** Literal code units in a row. *)
Definition lits (d : jsstring) : regex := map (fun c => Term (Lit c) Once) d.

(** A pattern that captures one quantified atom between two literal
    delimiters. *)
Definition wrap_re (d1 : jsstring) (a : atom) (q : quant) (d2 : jsstring)
  : regex :=
  lits d1 ++ GroupOpen :: Term a q :: GroupClose :: lits d2.

(** How far a bullet prefix has come at the end of a text. *)
Inductive prefix_state :=
| NoPrefix       (* no line break that only whitespace or a hyphen follows *)
| AfterBreak     (* a line break, then only whitespace *)
| AfterHyphen.   (* a line break, whitespace, then a hyphen *)

Definition prefix_step (q : prefix_state) (c : N) : prefix_state :=
  if (c =? LF)%N then AfterBreak
  else if is_space c then
    match q with AfterBreak => AfterBreak | _ => NoPrefix end
  else if (c =? HYPHEN)%N then
    match q with AfterBreak => AfterHyphen | _ => NoPrefix end
  else NoPrefix.

Definition prefix_scan (q : prefix_state) (s : jsstring) : prefix_state :=
  fold_left prefix_step s q.

(** The text ends in an unfinished bullet prefix. *)
Definition bullet_open (s : jsstring) : bool :=
  match prefix_scan NoPrefix s with
  | NoPrefix => false
  | _ => true
  end.

(** Where a scan for code spans stands. *)
Inductive span_state :=
| Outside     (* no backtick waits for its partner *)
| Opened      (* a backtick, nothing after it yet *)
| Inside.     (* a backtick and at least one other code unit *)

Definition span_step (q : span_state) (c : N) : span_state :=
  if (c =? BACKTICK)%N then
    match q with Inside => Outside | _ => Opened end
  else
    match q with Outside => Outside | _ => Inside end.

Definition span_scan (q : span_state) (s : jsstring) : span_state :=
  fold_left span_step s q.

(** Every code span that starts in the text ends in it. *)
Definition code_closed (s : jsstring) : bool :=
  match span_scan Outside s with
  | Outside => true
  | _ => false
  end.

Definition clean (c : N) : bool := negb (is_space c) && negb (c =? HYPHEN)%N.

(** What a run of code units without backtick does to a span scan. *)
Definition bump (q : span_state) : span_state :=
  match q with Outside => Outside | _ => Inside end.

(** The three inline substitutions, and the two that follow them. *)
Definition inline (s : jsstring) : jsstring :=
  replace code_re code_tpl (replace em_re em_tpl (replace bold_re bold_tpl s)).

Definition finish (s : jsstring) : jsstring :=
  replace newline_re br_tpl (replace bullet_re bullet_tpl s).

(** The elements with an id of a page that holds the widget: the ids the
    script asks for, the transcript inside the panel. *)
Definition sample_document : list element :=
  [El (u "chat-bubble") [];
   El (u "chat-window")
     [El (u "close-chat") [];
      El (u "chat-messages") [Slot];
      El (u "chat-input") [];
      El (u "send-btn") []]].

(** A reply that brings an element with the id of a placeholder. *)
Definition sample_markup : jsstring := u "<i id=loading-6></i>".

(** The parser on the markup of the examples: [sample_markup] holds one
    element with an id, the other replies of the examples hold none. *)
Definition sample_parser (h : jsstring) : list element :=
  if jsstring_eqb h sample_markup then [El (u "loading-6") []] else [].

(** A page with the panel closed and a message typed. *)
Definition sample_page : host :=
  {| host_window := [u "chat-window"; u "d-none"];
     host_input := u " hi ";
     host_focus := false;
     host_messages := [];
     host_scroll := 0;
     host_page := sample_document;
     host_parser := sample_parser |}.

(** The same page with only blanks typed. *)
Definition blank_page : host :=
  {| host_window := [u "chat-window"; u "d-none"];
     host_input := u "   ";
     host_focus := false;
     host_messages := [];
     host_scroll := 0;
     host_page := sample_document;
     host_parser := sample_parser |}.

(** The sample text of the formatting round trip. *)
Definition sample_text : jsstring :=
  u "**a** *b* `c`" ++ [LF] ++ u "- d".

(** ** Vocabulary of the further properties *)

(** The code unit [x] does not occur in the text. *)
Definition lacks (x : N) (s : jsstring) : bool :=
  forallb (fun c => negb (c =? x)%N) s.

(** One line of text without asterisk and backtick. *)
Definition inline_plain (s : jsstring) : bool :=
  lacks ASTERISK s && lacks BACKTICK s
  && forallb (fun c => negb (is_line_terminator c)) s.

(** The entry an exchange leaves in the transcript when its call ends. *)
Definition reply_entry (o : outcome) : entry :=
  match o with
  | JsonParsed data =>
      match get_response data with
      | Ok (VStr text) => bot_entry (formatMessage text)
      | _ => apology_entry
      end
  | _ => apology_entry
  end.

(** An entry of [l] carries the id. *)
Definition carries (id : jsstring) (l : list entry) : bool :=
  existsb (has_id id) l.

(** An entry of [l] carries the id or holds an element that does. *)
Definition transcript_holds (parse : jsstring -> list element)
  (id : jsstring) (l : list entry) : bool :=
  existsb (entry_holds parse id) l.

(** The ids of the elements of a page, in tree order. *)
Fixpoint page_ids (n : element) : list jsstring :=
  match n with
  | Slot => []
  | El i below => i :: flat_map page_ids below
  end.

(** The transcript has its place in or below the element. *)
Fixpoint has_slot (n : element) : bool :=
  match n with
  | Slot => true
  | El _ below => existsb has_slot below
  end.

(** No element of the host page is found under the id, and the transcript
    is in the page. *)
Definition page_clear (id : jsstring) (p : list element) : bool :=
  forallb (fun i => negb (same_id i id)) (flat_map page_ids p)
  && existsb has_slot p.

Definition removes_twice (o : outcome) : bool :=
  match o with
  | JsonParsed data =>
      match get_response data with
      | Ok (VStr _) => false
      | _ => true
      end
  | _ => false
  end.

(** The state after the lookups the callbacks make when a call ends: one
    in the callback that runs, a second one in the failure callback when
    the response callback raises after its own. *)
Definition lookups (id : jsstring) (o : outcome) (w : widget) : widget :=
  if removes_twice o then detach id (detach id w) else detach id w.

(** An entry as the script made it: nothing taken from its content yet. *)
Definition as_made (e : entry) : entry := set_removed [] e.

(** What the layout handlers leave alone. *)
Definition session_kept (w w' : widget) : Prop :=
  chatInput w' = chatInput w /\ chatMessages w' = chatMessages w
  /\ chatHistory w' = chatHistory w /\ requests w' = requests w
  /\ pending w' = pending w /\ console w' = console w.

(** The request [sendMessage] issues for the message [m] and the history
    [h]. *)
Definition chat_request (m : jsstring) (h : list turn) : request :=
  {| url := u "/chat";
     method := u "POST";
     headers := [(u "Content-Type", u "application/json")];
     body := Some (JObj [(u "message", JStr m);
                         (u "history", JArr (map turn_json h))]) |}.

(** The number of turns of role [r]. *)
Definition count_role (r : jsstring) (h : list turn) : nat :=
  List.length (filter (fun t => jsstring_eqb (role t) r) h).

(** A string that is not empty and neither starts nor ends with
    whitespace. *)
Definition trimmed (m : jsstring) : bool :=
  match m, rev m with
  | c :: _, d :: _ => negb (is_space c) && negb (is_space d)
  | _, _ => false
  end.

(** The entries without an id: messages of the user, replies and
    apologies. *)
Definition plain_entries (l : list entry) : list entry :=
  filter (fun e => match elem_id e with None => true | Some _ => false end) l.

(** The three kinds of event, by what they do to the record of calls. *)
Definition quiet (w w' : widget) : Prop :=
  chatHistory w' = chatHistory w /\ requests w' = requests w
  /\ pending w' = pending w /\ console w' = console w.

Definition sends (w w' : widget) : Prop :=
  exists m now,
    trimmed m = true
    /\ chatHistory w' = chatHistory w ++ [user_turn m]
    /\ requests w'
       = requests w ++ [chat_request m (chatHistory w ++ [user_turn m])]
    /\ pending w' = pending w ++ [loading_id now]
    /\ console w' = console w.

Definition settles (w w' : widget) : Prop :=
  exists hs cs,
    chatHistory w' = chatHistory w ++ hs /\ console w' = console w ++ cs
    /\ Forall (fun t => role t = u "model") hs
    /\ List.length hs <= 1 /\ List.length cs <= 1
    /\ 1 <= List.length hs + List.length cs
    /\ requests w' = requests w
    /\ List.length (pending w) = S (List.length (pending w')).

(** The record of calls balances: one request per user turn, and every
    call that has ended left a model turn or a logged error. *)
Definition ledger (w : widget) : Prop :=
  List.length (requests w) = count_role (u "user") (chatHistory w)
  /\ count_role (u "model") (chatHistory w) + List.length (pending w)
     <= List.length (requests w)
  /\ List.length (console w) + List.length (pending w)
     <= List.length (requests w)
  /\ List.length (requests w)
     <= List.length (pending w) + List.length (console w)
        + count_role (u "model") (chatHistory w).

(** A request whose history is a prefix of [h] that ends in the user turn
    of the request's message. *)
Definition snapshot_of (h : list turn) (r : request) : Prop :=
  exists m before after,
    r = chat_request m (before ++ [user_turn m])
    /\ trimmed m = true
    /\ h = before ++ user_turn m :: after.

Definition sent_turn (t : turn) : Prop :=
  role t = u "user" -> exists m, t = user_turn m /\ trimmed m = true.

(** * Properties *)

Local Open Scope nat_scope.

Arguments atom_matches : simpl never.
Arguments u : simpl never.

(** ** The matcher *)

Lemma star_greedy_inv p k : forall s i m,
  star_greedy p k s i = Some m ->
  exists s1 s2, s = s1 ++ s2 /\ k s2 (i + List.length s1) = Some m.
Proof.
  induction s as [|c s IH]; intros i m H; simpl in H.
  - exists [], []. simpl. rewrite Nat.add_0_r. auto.
  - destruct (p c).
    + destruct (star_greedy p k s (S i)) as [m'|] eqn:E.
      * inversion H; subst m'. apply IH in E. destruct E as (s1 & s2 & -> & Hk).
        exists (c :: s1), s2. split; [reflexivity|]. simpl.
        rewrite <- Hk. f_equal. lia.
      * exists [], (c :: s). simpl. rewrite Nat.add_0_r. auto.
    + exists [], (c :: s). simpl. rewrite Nat.add_0_r. auto.
Qed.

Lemma star_lazy_inv p k : forall s i m,
  star_lazy p k s i = Some m ->
  exists s1 s2, s = s1 ++ s2 /\ k s2 (i + List.length s1) = Some m.
Proof.
  induction s as [|c s IH]; intros i m H; simpl in H.
  - destruct (k [] i) eqn:E; [|discriminate]. inversion H; subst.
    exists [], []. simpl. rewrite Nat.add_0_r. auto.
  - destruct (k (c :: s) i) eqn:E.
    + inversion H; subst. exists [], (c :: s). simpl. rewrite Nat.add_0_r. auto.
    + destruct (p c); [|discriminate]. apply IH in H.
      destruct H as (s1 & s2 & -> & Hk). exists (c :: s1), s2.
      split; [reflexivity|]. simpl. rewrite <- Hk. f_equal. lia.
Qed.

Lemma run_bounds : forall r s i o cap j g,
  o <= i -> snd cap <= i ->
  run r s i o cap = Some (j, g) ->
  i <= j /\ j <= i + List.length s /\ snd g <= j.
Proof.
  induction r as [|n r IH]; intros s i o cap j g Ho Hc H; simpl in H.
  - inversion H; subst. lia.
  - destruct n as [a q| |].
    + destruct q.
      * destruct s as [|c s]; [discriminate|].
        destruct (atom_matches a c); [|discriminate].
        apply IH in H; simpl; lia.
      * apply star_greedy_inv in H. destruct H as (s1 & s2 & -> & H).
        apply IH in H; rewrite ?length_app; lia.
      * apply star_lazy_inv in H. destruct H as (s1 & s2 & -> & H).
        apply IH in H; rewrite ?length_app; lia.
      * destruct s as [|c s]; [discriminate|].
        destruct (atom_matches a c); [|discriminate].
        apply star_greedy_inv in H. destruct H as (s1 & s2 & -> & H).
        apply IH in H; simpl; rewrite ?length_app; lia.
    + apply IH in H; simpl; lia.
    + apply IH in H; simpl; lia.
Qed.

Lemma exec_bounds r s len g :
  exec r s = Some (len, g) -> len <= List.length s /\ snd g <= len.
Proof.
  unfold exec. intros H. apply run_bounds in H; simpl; lia.
Qed.

Lemma run_barrier x : forall r, avoids x r ->
  forall a b i o cap, run r (a ++ x :: b) i o cap = run r a i o cap.
Proof.
  induction r as [|n r IH]; intros Hr a b i o cap; simpl.
  - reflexivity.
  - inversion Hr as [|n' r' Hn Hr']; subst.
    destruct n as [t q| |]; [|apply IH; assumption|apply IH; assumption].
    assert (Hstar_g : forall a0 i0,
      star_greedy (atom_matches t) (fun s' j => run r s' j o cap) (a0 ++ x :: b) i0
      = star_greedy (atom_matches t) (fun s' j => run r s' j o cap) a0 i0).
    { clear a i. induction a0 as [|c a IHa]; intros i0; simpl.
      - rewrite Hn. apply (IH Hr' [] b).
      - rewrite IHa. pose proof (IH Hr' (c :: a) b) as E. simpl in E.
        rewrite E. reflexivity. }
    assert (Hstar_l : forall a0 i0,
      star_lazy (atom_matches t) (fun s' j => run r s' j o cap) (a0 ++ x :: b) i0
      = star_lazy (atom_matches t) (fun s' j => run r s' j o cap) a0 i0).
    { clear a i Hstar_g. induction a0 as [|c a IHa]; intros i0; simpl.
      - rewrite Hn. pose proof (IH Hr' [] b) as E. simpl in E. rewrite E.
        destruct (run r [] i0 o cap); reflexivity.
      - rewrite IHa. pose proof (IH Hr' (c :: a) b) as E. simpl in E.
        rewrite E. reflexivity. }
    destruct q.
    + destruct a as [|c a]; simpl.
      * rewrite Hn. reflexivity.
      * destruct (atom_matches t c); [apply IH; assumption|reflexivity].
    + apply Hstar_g.
    + apply Hstar_l.
    + destruct a as [|c a]; simpl.
      * rewrite Hn. reflexivity.
      * destruct (atom_matches t c); [apply Hstar_g|reflexivity].
Qed.

(** ** Substitution *)

Section Replace.
Variable r : regex.
Variable tpl : template.

Lemma replace_from_skipn : forall n s,
  n <= List.length s -> replace_from r tpl n s = replace r tpl (skipn n s).
Proof.
  induction n as [|n IH]; intros s Hn.
  - reflexivity.
  - destruct s as [|c s]; simpl in Hn; [lia|].
    simpl. apply IH. lia.
Qed.

Lemma replace_nil : exec r [] = None -> replace r tpl [] = [].
Proof. unfold replace. simpl. intros ->. reflexivity. Qed.

Lemma replace_cons_none c t :
  exec r (c :: t) = None -> replace r tpl (c :: t) = c :: replace r tpl t.
Proof. unfold replace. simpl. intros ->. reflexivity. Qed.

Lemma replace_cons_empty c t g :
  exec r (c :: t) = Some (0, g) ->
  replace r tpl (c :: t)
  = expand tpl (capture (c :: t) g) ++ c :: replace r tpl t.
Proof. unfold replace. simpl. intros ->. reflexivity. Qed.

Lemma replace_cons_some c t n g :
  exec r (c :: t) = Some (S n, g) ->
  replace r tpl (c :: t)
  = expand tpl (capture (c :: t) g) ++ replace r tpl (skipn n t).
Proof.
  intros H. pose proof (@exec_bounds _ _ _ _ H) as [Hl _]. simpl in Hl.
  unfold replace at 1. simpl. rewrite H.
  rewrite replace_from_skipn by lia. reflexivity.
Qed.
End Replace.

Lemma capture_app a y g :
  snd g <= List.length a -> capture (a ++ y) g = capture a g.
Proof.
  destruct g as [g1 g2]. unfold capture. simpl. intros H.
  destruct (Nat.le_gt_cases g1 g2) as [L|L].
  - rewrite skipn_app, firstn_app, length_skipn.
    replace (g1 - List.length a) with 0 by lia.
    replace (g2 - g1 - (List.length a - g1)) with 0 by lia.
    simpl. apply app_nil_r.
  - replace (g2 - g1) with 0 by lia. reflexivity.
Qed.

Lemma replace_barrier x r tpl :
  avoids x r -> exec r [] = None ->
  forall a b,
    replace r tpl (a ++ x :: b) = replace r tpl a ++ x :: replace r tpl b.
Proof.
  intros Hr He a b.
  remember (List.length a) as m eqn:Hm.
  revert a Hm. induction m as [m IH] using lt_wf_ind. intros a Hm.
  destruct a as [|c t].
  - simpl. rewrite replace_nil by assumption. simpl.
    apply replace_cons_none. unfold exec.
    rewrite (@run_barrier x r Hr [] b). exact He.
  - assert (E : exec r ((c :: t) ++ x :: b) = exec r (c :: t))
      by apply (@run_barrier x r Hr).
    simpl in E |- *.
    destruct (exec r (c :: t)) as [[[|n] g]|] eqn:Ex.
    + rewrite (@replace_cons_empty _ tpl _ _ _ E), (@replace_cons_empty _ tpl _ _ _ Ex).
      pose proof (@exec_bounds _ _ _ _ Ex) as [_ Hg].
      change (c :: t ++ x :: b) with ((c :: t) ++ x :: b).
      rewrite capture_app by (simpl; lia).
      rewrite <- app_assoc. simpl. f_equal. f_equal.
      apply (IH (List.length t)); [subst; simpl; lia|reflexivity].
    + rewrite (@replace_cons_some _ tpl _ _ _ _ E), (@replace_cons_some _ tpl _ _ _ _ Ex).
      pose proof (@exec_bounds _ _ _ _ Ex) as [Hl Hg]. simpl in Hl.
      change (c :: t ++ x :: b) with ((c :: t) ++ x :: b).
      rewrite capture_app by (simpl; lia).
      rewrite <- app_assoc. f_equal.
      rewrite skipn_app. replace (n - List.length t) with 0 by lia. simpl.
      apply (IH (List.length (skipn n t))); [|reflexivity].
      rewrite length_skipn. subst. simpl. lia.
    + rewrite (@replace_cons_none _ tpl _ _ E), (@replace_cons_none _ tpl _ _ Ex).
      simpl. f_equal.
      apply (IH (List.length t)); [subst; simpl; lia|reflexivity].
Qed.

(** A pattern that starts with the literal [x] cannot match where another
    code unit stands. *)
Lemma exec_head_mismatch x r c t :
  (c =? x)%N = false -> exec (Term (Lit x) Once :: r) (c :: t) = None.
Proof. unfold exec. simpl. unfold atom_matches. intros ->. reflexivity. Qed.

Lemma replace_copy_prefix x r tpl : forall pre s,
  forallb (fun c => negb (c =? x)%N) pre = true ->
  replace (Term (Lit x) Once :: r) tpl (pre ++ s)
  = pre ++ replace (Term (Lit x) Once :: r) tpl s.
Proof.
  induction pre as [|c pre IH]; intros s H; simpl in *.
  - reflexivity.
  - apply andb_prop in H. destruct H as [Hc H].
    rewrite replace_cons_none.
    + rewrite IH by assumption. reflexivity.
    + apply exec_head_mismatch. now apply negb_true_iff.
Qed.

Lemma is_space_not (x : N) c :
  is_space x = false -> is_space c = true -> (c =? x)%N = false.
Proof.
  intros Hx Hc. destruct (N.eqb_spec c x); [|reflexivity]. congruence.
Qed.

Lemma star_greedy_prefix p k m : forall ws s i,
  forallb p ws = true ->
  star_greedy p k s (i + List.length ws) = Some m ->
  star_greedy p k (ws ++ s) i = Some m.
Proof.
  induction ws as [|c ws IH]; intros s i Hws H; simpl in *.
  - rewrite Nat.add_0_r in H. exact H.
  - apply andb_prop in Hws. destruct Hws as [Hc Hws]. rewrite Hc.
    rewrite (IH s (S i) Hws); [reflexivity|].
    rewrite <- H. f_equal. lia.
Qed.

(** The bullet pattern at a line break that starts a bullet prefix. *)
Lemma exec_bullet_prefix ws w rest :
  forallb is_space ws = true -> is_space w = true ->
  exec bullet_re (LF :: ws ++ HYPHEN :: w :: rest)
  = Some (3 + List.length ws, (0, 0)).
Proof.
  intros Hws Hw. unfold exec, bullet_re.
  cbn [run]. change (atom_matches (Lit LF) LF) with true. cbv iota.
  apply star_greedy_prefix; [exact Hws|].
  cbn [star_greedy run]. change (atom_matches SpaceChar HYPHEN) with false.
  change (atom_matches (Lit HYPHEN) HYPHEN) with true. cbv iota.
  change (atom_matches SpaceChar w) with (is_space w). rewrite Hw.
  do 2 f_equal. 
Qed.

Lemma expand_bullet g : expand bullet_tpl g = bullet_markup.
Proof. unfold expand, bullet_tpl. cbn [flat_map]. apply app_nil_r. Qed.

Lemma skipn_past (A : Type) k (s : list A) : forall ws,
  skipn (k + List.length ws) (ws ++ s) = skipn k s.
Proof.
  induction ws as [|c ws IH]; simpl.
  - rewrite Nat.add_0_r. reflexivity.
  - rewrite Nat.add_succ_r. simpl. exact IH.
Qed.

Lemma replace_newline s :
  replace newline_re br_tpl s = flat_map break_unit s.
Proof.
  induction s as [|c s IH]; [reflexivity|].
  cbn [flat_map]. unfold break_unit at 1.
  assert (E : exec newline_re (c :: s)
              = if (c =? LF)%N then Some (1, (0, 0)) else None).
  { unfold exec, newline_re. cbn [run].
    change (atom_matches (Lit LF) c) with (c =? LF)%N.
    destruct (c =? LF)%N; reflexivity. }
  destruct (c =? LF)%N.
  - rewrite (@replace_cons_some _ br_tpl _ _ _ _ E). cbn [skipn].
    rewrite IH. reflexivity.
  - rewrite (@replace_cons_none _ br_tpl _ _ E). rewrite IH. reflexivity.
Qed.

Lemma replace_newline_app a b :
  replace newline_re br_tpl (a ++ b)
  = replace newline_re br_tpl a ++ replace newline_re br_tpl b.
Proof. rewrite !replace_newline. apply flat_map_app. Qed.

Lemma spaces_differ x ws :
  is_space x = false -> forallb is_space ws = true ->
  forallb (fun c => negb (c =? x)%N) ws = true.
Proof.
  intros Hx H. rewrite forallb_forall in *. intros c Hc.
  apply negb_true_iff. apply is_space_not; auto.
Qed.

(** A bullet prefix holds no asterisk and no backtick, so the first three
    substitutions copy it. *)
Lemma prefix_differs x ws w :
  is_space x = false -> (HYPHEN =? x)%N = false ->
  forallb is_space ws = true -> is_space w = true ->
  forallb (fun c => negb (c =? x)%N) (ws ++ [HYPHEN; w]) = true.
Proof.
  intros Hx Hh Hws Hw. rewrite forallb_app.
  rewrite (spaces_differ x ws Hx Hws). cbn [forallb andb].
  rewrite Hh. rewrite (is_space_not x w Hx Hw). reflexivity.
Qed.

Lemma expand_wrap a b g :
  expand [TText a; TGroup1; TText b] g = (a ++ g) ++ b.
Proof.
  unfold expand. cbn [flat_map]. rewrite app_nil_r. apply app_assoc.
Qed.

Lemma bold_line pre line :
  replace bold_re bold_tpl (pre ++ LF :: line)
  = replace bold_re bold_tpl pre ++ LF :: replace bold_re bold_tpl line.
Proof.
  apply replace_barrier; [|reflexivity].
  repeat constructor.
Qed.

Lemma em_line pre line :
  replace em_re em_tpl (pre ++ LF :: line)
  = replace em_re em_tpl pre ++ LF :: replace em_re em_tpl line.
Proof.
  apply replace_barrier; [|reflexivity].
  repeat constructor.
Qed.

Lemma bold_copy pre s :
  forallb (fun c => negb (c =? ASTERISK)%N) pre = true ->
  replace bold_re bold_tpl (pre ++ s) = pre ++ replace bold_re bold_tpl s.
Proof. apply replace_copy_prefix. Qed.

Lemma em_copy pre s :
  forallb (fun c => negb (c =? ASTERISK)%N) pre = true ->
  replace em_re em_tpl (pre ++ s) = pre ++ replace em_re em_tpl s.
Proof. apply replace_copy_prefix. Qed.

Lemma code_copy pre s :
  no_backtick pre = true ->
  replace code_re code_tpl (pre ++ s) = pre ++ replace code_re code_tpl s.
Proof. apply replace_copy_prefix. Qed.

Ltac list_norm :=
  repeat (rewrite <- app_assoc || rewrite <- app_comm_cons);
  cbn [app]; try reflexivity.

(** ** Matches of the wrapping patterns *)

Lemma run_lits d r : forall s i o cap m,
  run (lits d ++ r) s i o cap = Some m ->
  exists s', s = d ++ s' /\ run r s' (i + List.length d) o cap = Some m.
Proof.
  induction d as [|c d IH]; intros s i o cap m H.
  - exists s. rewrite Nat.add_0_r. auto.
  - cbn [lits map app run] in H. destruct s as [|x s]; [discriminate|].
    unfold atom_matches in H. destruct (N.eqb_spec x c) as [->|]; [|discriminate].
    apply IH in H. destruct H as (s' & -> & H). exists s'.
    split; [reflexivity|]. rewrite <- H. cbn [List.length]. f_equal. lia.
Qed.

Lemma run_quant a q r s i o cap m :
  run (Term a q :: r) s i o cap = Some m ->
  exists body s', s = body ++ s'
                  /\ run r s' (i + List.length body) o cap = Some m.
Proof.
  intros H. cbn [run] in H. destruct q.
  - destruct s as [|c s]; [discriminate|].
    destruct (atom_matches a c); [|discriminate].
    exists [c], s. split; [reflexivity|]. rewrite <- H. cbn. f_equal. lia.
  - apply star_greedy_inv in H. exact H.
  - apply star_lazy_inv in H. exact H.
  - destruct s as [|c s]; [discriminate|].
    destruct (atom_matches a c); [|discriminate].
    apply star_greedy_inv in H. destruct H as (s1 & s2 & -> & H).
    exists (c :: s1), s2. split; [reflexivity|]. rewrite <- H.
    cbn [List.length]. f_equal. lia.
Qed.

(** What a match of a wrapping pattern looks like. *)
Lemma exec_wrap d1 a q d2 s len g :
  exec (wrap_re d1 a q d2) s = Some (len, g) ->
  exists body, firstn len s = d1 ++ body ++ d2 /\ capture s g = body
               /\ len = List.length (d1 ++ body ++ d2).
Proof.
  unfold exec, wrap_re. intros H.
  apply run_lits in H. destruct H as (s1 & -> & H). cbn [run] in H.
  change (run (Term a q :: GroupClose :: lits d2) s1 (0 + List.length d1)
              (0 + List.length d1) (0, 0) = Some (len, g)) in H.
  apply run_quant in H. destruct H as (body & s2 & -> & H). cbn [run] in H.
  rewrite <- (app_nil_r (lits d2)) in H.
  apply run_lits in H. destruct H as (s3 & -> & H). cbn [run] in H.
  inversion H; subst len g; clear H. exists body. cbn [Nat.add].
  repeat split.
  - rewrite !app_assoc. rewrite firstn_app.
    rewrite firstn_all2 by (rewrite !length_app; lia).
    replace (_ - _) with 0 by (rewrite !length_app; lia).
    cbn. apply app_nil_r.
  - unfold capture. cbn [fst snd].
    rewrite skipn_app, skipn_all, Nat.sub_diag. cbn [skipn app].
    replace (_ - _) with (List.length body) by lia.
    rewrite firstn_app, firstn_all, Nat.sub_diag. cbn. apply app_nil_r.
  - rewrite !length_app. lia.
Qed.

(** A left-to-right scan with a finite memory sees the same thing after a
    substitution when each expanded match leaves it where the match did. *)
Section ScanInvariant.
Variable St : Type.
Variable step : St -> N -> St.
Variable r : regex.
Variable tpl : template.
Hypothesis r_nonempty : exec r [] = None.
Hypothesis same_effect : forall s len g,
  exec r s = Some (len, g) ->
  forall q, fold_left step (expand tpl (capture s g)) q
            = fold_left step (firstn len s) q.

Lemma scan_replace : forall s q,
  fold_left step (replace r tpl s) q = fold_left step s q.
Proof.
  intros s. remember (List.length s) as m eqn:Hm.
  revert s Hm. induction m as [m IH] using lt_wf_ind. intros s Hm q.
  destruct s as [|c t].
  - rewrite replace_nil by assumption. reflexivity.
  - destruct (exec r (c :: t)) as [[[|n] g]|] eqn:E.
    + rewrite (@replace_cons_empty _ tpl _ _ _ E).
      rewrite fold_left_app, (same_effect _ E q). cbn [firstn fold_left].
      apply (IH (List.length t)); [subst; simpl; lia|reflexivity].
    + rewrite (@replace_cons_some _ tpl _ _ _ _ E).
      pose proof (@exec_bounds _ _ _ _ E) as [Hl _]. simpl in Hl.
      rewrite fold_left_app, (same_effect _ E q).
      rewrite (IH (List.length (skipn n t)));
        [|rewrite length_skipn; subst; simpl; lia|reflexivity].
      rewrite <- fold_left_app.
      change (skipn n t) with (skipn (S n) (c :: t)).
      rewrite firstn_skipn. reflexivity.
    + rewrite (@replace_cons_none _ tpl _ _ E). cbn [fold_left].
      apply (IH (List.length t)); [subst; simpl; lia|reflexivity].
Qed.
End ScanInvariant.

(** ** Bullet prefixes and code spans *)

Lemma prefix_step_clean q c : clean c = true -> prefix_step q c = NoPrefix.
Proof.
  unfold clean, prefix_step. intros H. apply andb_prop in H.
  destruct H as [Hs Hh]. apply negb_true_iff in Hs, Hh.
  rewrite Hs, Hh.
  destruct (N.eqb_spec c LF) as [->|]; [discriminate Hs|reflexivity].
Qed.

Lemma prefix_scan_clean q x c :
  clean c = true -> prefix_scan q (x ++ [c]) = NoPrefix.
Proof.
  intros H. unfold prefix_scan. rewrite fold_left_app. cbn.
  apply prefix_step_clean. exact H.
Qed.

(** Both delimiters and tags end in a code unit that stops a prefix. *)
Lemma prefix_same_effect d1 d2 t1 t2 e1 e2 body q :
  clean e1 = true -> clean e2 = true ->
  prefix_scan q (expand [TText t1; TGroup1; TText (t2 ++ [e2])] body)
  = prefix_scan q (d1 ++ body ++ d2 ++ [e1]).
Proof.
  intros H1 H2. rewrite expand_wrap.
  rewrite !app_assoc. rewrite !prefix_scan_clean by assumption. reflexivity.
Qed.

Lemma span_scan_plain : forall d q,
  no_backtick d = true -> d <> [] -> span_scan q d = bump q.
Proof.
  unfold span_scan.
  induction d as [|c d IH]; intros q Hd Hne; [contradiction|].
  cbn in Hd. apply andb_prop in Hd. destruct Hd as [Hc Hd].
  apply negb_true_iff in Hc. cbn [fold_left]. unfold span_step at 2.
  rewrite Hc. destruct d as [|c' d'].
  - destruct q; reflexivity.
  - rewrite IH by (assumption || discriminate). destruct q; reflexivity.
Qed.

Lemma span_scan_app q a b :
  span_scan q (a ++ b) = span_scan (span_scan q a) b.
Proof. apply fold_left_app. Qed.

Lemma span_same_effect d1 d2 t1 t2 body q :
  no_backtick d1 = true -> d1 <> [] -> no_backtick d2 = true -> d2 <> [] ->
  no_backtick t1 = true -> t1 <> [] -> no_backtick t2 = true -> t2 <> [] ->
  span_scan q (expand [TText t1; TGroup1; TText t2] body)
  = span_scan q (d1 ++ body ++ d2).
Proof.
  intros Hd1 Nd1 Hd2 Nd2 Ht1 Nt1 Ht2 Nt2. rewrite expand_wrap.
  rewrite !span_scan_app.
  rewrite (@span_scan_plain t1 q Ht1 Nt1), (@span_scan_plain d1 q Hd1 Nd1).
  rewrite (@span_scan_plain t2 _ Ht2 Nt2), (@span_scan_plain d2 _ Hd2 Nd2).
  reflexivity.
Qed.

Lemma exec_wrap_nil d1 a q d2 e :
  exec (wrap_re d1 a q (d2 ++ [e])) [] = None.
Proof.
  destruct (exec (wrap_re d1 a q (d2 ++ [e])) []) as [[len g]|] eqn:E;
    [|reflexivity].
  apply exec_wrap in E. destruct E as (body & E & _).
  rewrite firstn_nil in E. symmetry in E.
  rewrite !app_assoc in E. apply app_eq_nil in E. destruct E. discriminate.
Qed.

(** A substitution that wraps the captured text in tags does not change
    whether a bullet prefix is under way. *)
Lemma wrap_prefix_scan d1 a qn d2 e1 t1 t2 e2 :
  clean e1 = true -> clean e2 = true ->
  forall s q,
    prefix_scan q (replace (wrap_re d1 a qn (d2 ++ [e1]))
                           [TText t1; TGroup1; TText (t2 ++ [e2])] s)
    = prefix_scan q s.
Proof.
  intros H1 H2. apply scan_replace; [apply exec_wrap_nil|].
  intros s len g E q. apply exec_wrap in E.
  destruct E as (body & -> & -> & _).
  apply (@prefix_same_effect d1 d2 t1 t2 e1 e2 body q H1 H2).
Qed.

(** Nor does it change which code spans are open, when delimiters and tags
    hold no backtick. *)
Lemma wrap_span_scan d1 a qn d2 e1 t1 t2 :
  no_backtick d1 = true -> d1 <> [] -> no_backtick (d2 ++ [e1]) = true ->
  no_backtick t1 = true -> t1 <> [] -> no_backtick t2 = true -> t2 <> [] ->
  forall s q,
    span_scan q (replace (wrap_re d1 a qn (d2 ++ [e1]))
                         [TText t1; TGroup1; TText t2] s)
    = span_scan q s.
Proof.
  intros Hd1 Nd1 Hd2 Ht1 Nt1 Ht2 Nt2. apply scan_replace; [apply exec_wrap_nil|].
  intros s len g E q. apply exec_wrap in E.
  destruct E as (body & -> & -> & _).
  apply span_same_effect; auto. intros H. apply app_eq_nil in H.
  destruct H. discriminate.
Qed.

Lemma bold_prefix_scan s q :
  prefix_scan q (replace bold_re bold_tpl s) = prefix_scan q s.
Proof.
  exact (@wrap_prefix_scan [ASTERISK; ASTERISK] AnyChar StarLazy [ASTERISK]
           ASTERISK (u "<strong>") (u "</strong") 62%N eq_refl eq_refl s q).
Qed.

Lemma em_prefix_scan s q :
  prefix_scan q (replace em_re em_tpl s) = prefix_scan q s.
Proof.
  exact (@wrap_prefix_scan [ASTERISK] AnyChar StarLazy []
           ASTERISK (u "<em>") (u "</em") 62%N eq_refl eq_refl s q).
Qed.

Lemma code_prefix_scan s q :
  prefix_scan q (replace code_re code_tpl s) = prefix_scan q s.
Proof.
  exact (@wrap_prefix_scan [BACKTICK] (NotLit BACKTICK) PlusGreedy []
           BACKTICK (u "<code>") (u "</code") 62%N eq_refl eq_refl s q).
Qed.

Lemma bold_span_scan s q :
  span_scan q (replace bold_re bold_tpl s) = span_scan q s.
Proof.
  apply (@wrap_span_scan [ASTERISK; ASTERISK] AnyChar StarLazy [ASTERISK]
           ASTERISK (u "<strong>") (u "</strong>"));
    (reflexivity || discriminate).
Qed.

Lemma em_span_scan s q :
  span_scan q (replace em_re em_tpl s) = span_scan q s.
Proof.
  apply (@wrap_span_scan [ASTERISK] AnyChar StarLazy []
           ASTERISK (u "<em>") (u "</em>"));
    (reflexivity || discriminate).
Qed.

Lemma prefix_scan_mono : forall s q,
  prefix_scan q s = NoPrefix -> prefix_scan NoPrefix s = NoPrefix.
Proof.
  unfold prefix_scan. induction s as [|c t IH]; intros q H; [reflexivity|].
  cbn [fold_left] in *. unfold prefix_step at 2.
  destruct (c =? LF)%N eqn:E.
  - unfold prefix_step in H at 2. rewrite E in H. exact H.
  - destruct (is_space c); [|destruct (c =? HYPHEN)%N];
      exact (IH _ H).
Qed.

Lemma prefix_scan_tail c t :
  prefix_scan NoPrefix (c :: t) = NoPrefix -> prefix_scan NoPrefix t = NoPrefix.
Proof. intros H. exact (prefix_scan_mono t _ H). Qed.

Lemma prefix_scan_skipn n : forall s,
  prefix_scan NoPrefix s = NoPrefix ->
  prefix_scan NoPrefix (skipn n s) = NoPrefix.
Proof.
  induction n as [|n IH]; intros s H; [exact H|].
  destruct s as [|c t]; [exact H|]. cbn [skipn].
  apply IH. exact (@prefix_scan_tail c t H).
Qed.

Lemma bullet_tail_closed X o cap : forall t i,
  prefix_scan AfterBreak t = NoPrefix ->
  star_greedy (atom_matches SpaceChar)
    (fun s j => run [Term (Lit HYPHEN) Once; Term SpaceChar Once] s j o cap)
    (t ++ X) i
  = star_greedy (atom_matches SpaceChar)
    (fun s j => run [Term (Lit HYPHEN) Once; Term SpaceChar Once] s j o cap)
    t i.
Proof.
  induction t as [|d t IH]; intros i H; [discriminate H|].
  unfold prefix_scan in H. cbn [fold_left] in H.
  change ((d :: t) ++ X) with (d :: t ++ X). cbn [star_greedy].
  change (atom_matches SpaceChar d) with (is_space d).
  destruct (is_space d) eqn:Hs.
  - assert (Hq : prefix_step AfterBreak d = AfterBreak).
    { unfold prefix_step. rewrite Hs. destruct (d =? LF)%N; reflexivity. }
    rewrite Hq in H. rewrite (IH (S i) H). cbn [run].
    change (atom_matches (Lit HYPHEN) d) with (d =? HYPHEN)%N.
    rewrite (is_space_not HYPHEN d eq_refl Hs). reflexivity.
  - cbn [run]. change (atom_matches (Lit HYPHEN) d) with (d =? HYPHEN)%N.
    destruct (d =? HYPHEN)%N eqn:Hh; [|reflexivity].
    assert (Hq : prefix_step AfterBreak d = AfterHyphen).
    { unfold prefix_step. rewrite Hs, Hh.
      destruct (N.eqb_spec d LF) as [->|]; [discriminate Hs|reflexivity]. }
    rewrite Hq in H. destruct t as [|e t]; [discriminate H|]. reflexivity.
Qed.

Lemma exec_bullet_closed c t X :
  prefix_scan NoPrefix (c :: t) = NoPrefix ->
  exec bullet_re ((c :: t) ++ X) = exec bullet_re (c :: t).
Proof.
  intros H. unfold exec, bullet_re. cbn [app run].
  change (atom_matches (Lit LF) c) with (c =? LF)%N.
  destruct (c =? LF)%N eqn:E; [|reflexivity].
  apply (@bullet_tail_closed X 0 (0, 0) t 1).
  unfold prefix_scan in *. cbn [fold_left] in H.
  unfold prefix_step in H at 2. rewrite E in H. exact H.
Qed.

Lemma replace_bullet_at ws w R :
  forallb is_space ws = true -> is_space w = true ->
  forall P, prefix_scan NoPrefix P = NoPrefix ->
  replace bullet_re bullet_tpl (P ++ LF :: ws ++ HYPHEN :: w :: R)
  = replace bullet_re bullet_tpl P ++ bullet_markup
    ++ replace bullet_re bullet_tpl R.
Proof.
  intros Hws Hw P.
  remember (List.length P) as m eqn:Hm.
  revert P Hm. induction m as [m IH] using lt_wf_ind. intros P Hm HP.
  destruct P as [|c t].
  - cbn [app]. rewrite (@replace_cons_some _ bullet_tpl _ _ _ _
                          (@exec_bullet_prefix ws w R Hws Hw)).
    rewrite expand_bullet. rewrite replace_nil by reflexivity.
    cbn [app]. f_equal.
    exact (f_equal _ (skipn_past 2 (HYPHEN :: w :: R) ws)).
  - pose proof (@exec_bullet_closed c t (LF :: ws ++ HYPHEN :: w :: R) HP) as E.
    cbn [app] in E |- *.
    destruct (exec bullet_re (c :: t)) as [[[|n] g]|] eqn:Ex.
    + rewrite (@replace_cons_empty _ bullet_tpl _ _ _ E),
              (@replace_cons_empty _ bullet_tpl _ _ _ Ex).
      rewrite !expand_bullet. rewrite <- !app_assoc. f_equal.
      cbn [app]. f_equal.
      apply (IH (List.length t)); [subst; simpl; lia|reflexivity|].
      exact (@prefix_scan_tail c t HP).
    + rewrite (@replace_cons_some _ bullet_tpl _ _ _ _ E),
              (@replace_cons_some _ bullet_tpl _ _ _ _ Ex).
      pose proof (@exec_bounds _ _ _ _ Ex) as [Hl _]. simpl in Hl.
      rewrite !expand_bullet. rewrite <- !app_assoc. f_equal.
      rewrite skipn_app. replace (n - List.length t) with 0 by lia.
      cbn [skipn].
      apply (IH (List.length (skipn n t))).
      * rewrite length_skipn. subst. simpl. lia.
      * reflexivity.
      * apply prefix_scan_skipn. exact (@prefix_scan_tail c t HP).
    + rewrite (@replace_cons_none _ bullet_tpl _ _ E),
              (@replace_cons_none _ bullet_tpl _ _ Ex).
      cbn [app]. f_equal.
      apply (IH (List.length t)); [subst; simpl; lia|reflexivity|].
      exact (@prefix_scan_tail c t HP).
Qed.

(** The code pattern at a backtick that opens a span. *)
Lemma exec_code_span d b Y :
  (d =? BACKTICK)%N = false -> no_backtick b = true ->
  exec code_re (BACKTICK :: d :: b ++ BACKTICK :: Y)
  = Some (3 + List.length b, (1, 2 + List.length b)).
Proof.
  intros Hd Hb. unfold exec, code_re. cbn [run].
  change (atom_matches (Lit BACKTICK) BACKTICK) with true. cbv iota.
  change (atom_matches (NotLit BACKTICK) d) with (negb (d =? BACKTICK)%N).
  rewrite Hd. cbn [negb]. apply star_greedy_prefix; [exact Hb|].
  cbn [star_greedy run].
  change (atom_matches (NotLit BACKTICK) BACKTICK) with false.
  change (atom_matches (Lit BACKTICK) BACKTICK) with true. cbv iota.
  reflexivity.
Qed.

Lemma capture_code d b Y :
  capture (BACKTICK :: d :: b ++ Y) (1, 2 + List.length b) = d :: b.
Proof.
  unfold capture. cbn [fst snd skipn Nat.add Nat.sub firstn]. f_equal.
  rewrite firstn_app, firstn_all, Nat.sub_diag. cbn.
  apply app_nil_r.
Qed.

Lemma exec_code_empty Y :
  exec code_re (BACKTICK :: BACKTICK :: Y) = None.
Proof. reflexivity. Qed.

Lemma inside_split : forall t,
  span_scan Inside t = Outside ->
  exists b rest, t = b ++ BACKTICK :: rest /\ no_backtick b = true
                 /\ span_scan Outside rest = Outside.
Proof.
  unfold span_scan. induction t as [|c t IH]; intros H; [discriminate H|].
  cbn [fold_left] in H. unfold span_step in H at 2.
  destruct (N.eqb_spec c BACKTICK) as [->|Hc].
  - exists [], t. auto.
  - destruct (IH H) as (b & rest & -> & Hb & Hr).
    exists (c :: b), rest. repeat split; [|exact Hr].
    unfold no_backtick in *. cbn [forallb]. rewrite Hb.
    apply N.eqb_neq in Hc. rewrite Hc. reflexivity.
Qed.

(** Where no code span is open, the text after that point is substituted on
    its own. *)
Lemma replace_code_split X : forall P,
  span_scan Outside P = Outside ->
  replace code_re code_tpl (P ++ X)
  = replace code_re code_tpl P ++ replace code_re code_tpl X.
Proof.
  intros P. remember (List.length P) as m eqn:Hm.
  revert P Hm. induction m as [m IH] using lt_wf_ind. intros P Hm HP.
  destruct P as [|c t]; [reflexivity|].
  unfold span_scan in HP. cbn [fold_left] in HP. unfold span_step in HP at 2.
  cbn [app]. destruct (c =? BACKTICK)%N eqn:Hc.
  - apply N.eqb_eq in Hc. subst c.
    destruct t as [|d t]; [discriminate HP|].
    cbn [fold_left] in HP. unfold span_step in HP at 2.
    destruct (d =? BACKTICK)%N eqn:Hd.
    + apply N.eqb_eq in Hd. subst d. cbn [app].
      rewrite !(@replace_cons_none code_re code_tpl _ _ (exec_code_empty _)).
      cbn [app]. f_equal.
      apply (IH (List.length (BACKTICK :: t)) ltac:(subst; simpl; lia)
                (BACKTICK :: t) eq_refl).
      exact HP.
    + destruct (inside_split t HP) as (b & rest & -> & Hb & Hr).
      cbn [app]. rewrite <- app_assoc. cbn [app].
      rewrite !(@replace_cons_some code_re code_tpl _ _ _ _
                  (@exec_code_span d b _ Hd Hb)).
      rewrite !capture_code, !skipn_cons.
      change (S (Datatypes.length b)) with (1 + Datatypes.length b).
      rewrite !(skipn_past 1 _ b). cbn [skipn].
      rewrite <- app_assoc. f_equal.
      apply (IH (List.length rest)); [|reflexivity|exact Hr].
      subst. cbn [List.length]. rewrite length_app. cbn [List.length]. lia.
  - rewrite !(@replace_cons_none code_re code_tpl _ _
                (@exec_head_mismatch _ _ _ _ Hc)).
    cbn [app]. f_equal.
    apply (IH (List.length t)); [subst; simpl; lia|reflexivity|exact HP].
Qed.

Lemma code_closed_scan s : code_closed s = true -> span_scan Outside s = Outside.
Proof. unfold code_closed. destruct (span_scan Outside s); congruence. Qed.

Lemma bullet_open_scan s :
  bullet_open s = false -> prefix_scan NoPrefix s = NoPrefix.
Proof. unfold bullet_open. destruct (prefix_scan NoPrefix s); congruence. Qed.

Lemma prefix_scan_snoc q s c :
  prefix_scan q (s ++ [c]) = prefix_step (prefix_scan q s) c.
Proof. unfold prefix_scan. rewrite fold_left_app. reflexivity. Qed.

Lemma prefix_scan_spaces : forall ws,
  forallb is_space ws = true -> prefix_scan AfterBreak ws = AfterBreak.
Proof.
  induction ws as [|c ws IH] using rev_ind; intros H; [reflexivity|].
  rewrite forallb_app in H. apply andb_prop in H. destruct H as [Hws Hc].
  cbn in Hc. rewrite andb_true_r in Hc.
  rewrite prefix_scan_snoc, (IH Hws). unfold prefix_step. rewrite Hc.
  destruct (c =? LF)%N; reflexivity.
Qed.

Lemma prefix_scan_break q a ws :
  forallb is_space ws = true -> prefix_scan q (a ++ LF :: ws) = AfterBreak.
Proof.
  intros H. unfold prefix_scan. rewrite fold_left_app. cbn [fold_left].
  change (prefix_step (fold_left prefix_step a q) LF) with AfterBreak.
  apply prefix_scan_spaces. exact H.
Qed.

Lemma after_break_inv : forall s,
  prefix_scan NoPrefix s = AfterBreak ->
  exists a ws, s = a ++ LF :: ws /\ forallb is_space ws = true.
Proof.
  induction s as [|c s IH] using rev_ind; intros H; [discriminate H|].
  rewrite prefix_scan_snoc in H. unfold prefix_step in H.
  destruct (N.eqb_spec c LF) as [->|Hc].
  - exists s, []. auto.
  - destruct (is_space c) eqn:Hs.
    + destruct (prefix_scan NoPrefix s) eqn:E; try discriminate H.
      destruct (IH eq_refl) as (a & ws & -> & Hws).
      exists a, (ws ++ [c]). rewrite <- app_assoc. split; [reflexivity|].
      rewrite forallb_app, Hws. cbn. rewrite Hs. reflexivity.
    + destruct (c =? HYPHEN)%N; [|discriminate H].
      destruct (prefix_scan NoPrefix s); discriminate H.
Qed.

(** [bullet_open] says what its name says: the text ends in a line break
    followed only by whitespace, or by whitespace and one hyphen. *)
Lemma bullet_open_spec s :
  bullet_open s = true <->
  exists a ws, forallb is_space ws = true
               /\ (s = a ++ LF :: ws \/ s = a ++ LF :: ws ++ [HYPHEN]).
Proof.
  unfold bullet_open. split.
  - intros H. destruct (prefix_scan NoPrefix s) eqn:E; [discriminate H| |].
    + destruct (after_break_inv s E) as (a & ws & -> & Hws).
      exists a, ws. auto.
    + destruct s as [|c s _] using rev_ind; [discriminate E|].
      rewrite prefix_scan_snoc in E. unfold prefix_step in E.
      destruct (c =? LF)%N; [discriminate E|].
      destruct (is_space c).
      * destruct (prefix_scan NoPrefix s); discriminate E.
      * destruct (N.eqb_spec c HYPHEN) as [->|]; [|discriminate E].
        destruct (prefix_scan NoPrefix s) eqn:E'; try discriminate E.
        destruct (after_break_inv s E') as (a & ws & -> & Hws).
        exists a, ws. split; [exact Hws|]. right.
        rewrite <- app_assoc. reflexivity.
  - intros (a & ws & Hws & [->| ->]).
    + rewrite (prefix_scan_break NoPrefix a ws Hws). reflexivity.
    + change (a ++ LF :: ws ++ [HYPHEN]) with (a ++ (LF :: ws) ++ [HYPHEN]).
      rewrite app_assoc, prefix_scan_snoc.
      rewrite (prefix_scan_break NoPrefix a ws Hws). reflexivity.
Qed.

(** Text without a backtick opens no code span. *)
Lemma code_closed_plain s : no_backtick s = true -> code_closed s = true.
Proof.
  intros H. unfold code_closed. destruct s as [|c s]; [reflexivity|].
  rewrite (@span_scan_plain (c :: s) Outside H) by discriminate. reflexivity.
Qed.

(** A span between two backticks is closed where its second backtick
    stands. *)
Lemma code_closed_span a b c :
  code_closed a = true -> no_backtick b = true -> b <> [] ->
  code_closed (a ++ BACKTICK :: b ++ BACKTICK :: c) = code_closed c.
Proof.
  intros Ha Hb Nb. unfold code_closed in *.
  rewrite span_scan_app.
  destruct (span_scan Outside a); try discriminate Ha.
  change (BACKTICK :: b ++ BACKTICK :: c) with ([BACKTICK] ++ b ++ [BACKTICK] ++ c).
  rewrite !span_scan_app. rewrite (@span_scan_plain b _ Hb Nb). reflexivity.
Qed.

(** A bullet prefix at the very start of the text has no line break before
    it, and the formatter leaves it as it is. *)
Lemma first_line_bullet_kept :
  formatMessage (u "- d") = u "- d".
Proof. vm_compute. reflexivity. Qed.

(** A later line can keep its prefix too: after a line that holds a bare
    hyphen, the line break of the next line is taken as the whitespace
    that ends the earlier match. *)
Example bare_hyphen_line :
  formatMessage ([LF] ++ u "-" ++ [LF] ++ u "- x") = bullet_markup ++ u "- x".
Proof. vm_compute. reflexivity. Qed.

Lemma split_at_backtick : forall s,
  no_backtick s = true
  \/ exists b r, s = b ++ BACKTICK :: r /\ no_backtick b = true.
Proof.
  induction s as [|c s IH]; [left; reflexivity|].
  destruct (c =? BACKTICK)%N eqn:E.
  - right. apply N.eqb_eq in E. subst c. exists [], s. auto.
  - destruct IH as [H|(b & r & -> & Hb)].
    + left. unfold no_backtick in *. cbn. rewrite E, H. reflexivity.
    + right. exists (c :: b), r. split; [reflexivity|].
      unfold no_backtick in *. cbn. rewrite E, Hb. reflexivity.
Qed.

Lemma star_greedy_fail p k : forall s i,
  forallb p s = true ->
  (forall c t j, p c = true -> k (c :: t) j = None) ->
  (forall j, k [] j = None) ->
  star_greedy p k s i = None.
Proof.
  induction s as [|c s IH]; intros i Hs Hk Hn; cbn [star_greedy].
  - apply Hn.
  - cbn in Hs. apply andb_prop in Hs. destruct Hs as [Hc Hs].
    rewrite Hc, (IH (S i) Hs Hk Hn). apply Hk. exact Hc.
Qed.

(** A backtick that no later backtick answers opens no span. *)
Lemma exec_code_open s :
  no_backtick s = true -> exec code_re (BACKTICK :: s) = None.
Proof.
  intros H. unfold exec, code_re. cbn [run].
  change (atom_matches (Lit BACKTICK) BACKTICK) with true. cbv iota.
  destruct s as [|d s]; [reflexivity|].
  unfold no_backtick in H. cbn in H. apply andb_prop in H.
  destruct H as [Hd Hs].
  change (atom_matches (NotLit BACKTICK) d) with (negb (d =? BACKTICK)%N).
  rewrite Hd. apply star_greedy_fail.
  - exact Hs.
  - intros c t j Hc. cbn [run].
    change (atom_matches (NotLit BACKTICK) c) with (negb (c =? BACKTICK)%N) in Hc.
    change (atom_matches (Lit BACKTICK) c) with (c =? BACKTICK)%N.
    apply negb_true_iff in Hc. rewrite Hc. reflexivity.
  - reflexivity.
Qed.

Lemma no_backtick_app a b :
  no_backtick (a ++ b) = no_backtick a && no_backtick b.
Proof. apply forallb_app. Qed.

Lemma prefix_scan_app q a b :
  prefix_scan q (a ++ b) = prefix_scan (prefix_scan q a) b.
Proof. apply fold_left_app. Qed.

(** What stands before a text that holds no backtick keeps its place
    through the code substitution, whether or not a code span runs over
    it; and what the substitution puts before it ends in the same state of
    a bullet prefix. *)
Lemma code_through M R :
  no_backtick M = true -> M <> [] ->
  forall P, exists A B,
    replace code_re code_tpl (P ++ M ++ R) = A ++ M ++ B
    /\ forall q, prefix_scan q A = prefix_scan q P.
Proof.
  intros HM HMne P. remember (List.length P) as m eqn:Hm.
  revert P Hm. induction m as [m IH] using lt_wf_ind. intros P Hm.
  destruct P as [|c t].
  - exists [], (replace code_re code_tpl R). split; [|reflexivity].
    cbn [app]. apply code_copy. exact HM.
  - cbn [app]. destruct (c =? BACKTICK)%N eqn:Hc.
    + apply N.eqb_eq in Hc. subst c.
      destruct (split_at_backtick t) as [Ht|(b & t2 & -> & Hb)].
      * (* the span, if there is one, runs over [M] *)
        destruct (split_at_backtick R) as [HR|(r1 & R2 & -> & Hr1)].
        -- exists (BACKTICK :: t), (replace code_re code_tpl R).
           split; [|reflexivity].
           rewrite (@replace_cons_none code_re code_tpl BACKTICK _).
           ++ cbn [app]. f_equal. rewrite (code_copy t _ Ht).
              rewrite (code_copy M _ HM). reflexivity.
           ++ apply exec_code_open. rewrite !no_backtick_app, Ht, HM, HR.
              reflexivity.
        -- exists (u "<code>" ++ t),
                  (r1 ++ u "</code>" ++ replace code_re code_tpl R2).
           split.
           ++ assert (Hbody : no_backtick (t ++ M ++ r1) = true)
                by (rewrite !no_backtick_app, Ht, HM, Hr1; reflexivity).
              destruct (t ++ M ++ r1) as [|d b] eqn:Eb.
              { destruct t; [destruct M; [contradiction|discriminate]
                            |discriminate]. }
              replace (t ++ M ++ r1 ++ BACKTICK :: R2)
                with ((d :: b) ++ BACKTICK :: R2)
                by (rewrite <- Eb, <- !app_assoc; reflexivity).
              unfold no_backtick in Hbody. cbn in Hbody.
              apply andb_prop in Hbody. destruct Hbody as [Hd Hbb].
              apply negb_true_iff in Hd. cbn [app].
              rewrite (@replace_cons_some code_re code_tpl _ _ _ _
                         (@exec_code_span d b R2 Hd Hbb)).
              rewrite capture_code, skipn_cons.
              change (S (Datatypes.length b)) with (1 + Datatypes.length b).
              rewrite (skipn_past 1 _ b). cbn [skipn].
              unfold code_tpl, expand. cbn [flat_map].
              rewrite app_nil_r, <- Eb. list_norm.
           ++ intros q. rewrite prefix_scan_app.
              change (BACKTICK :: t) with ([BACKTICK] ++ t).
              rewrite (prefix_scan_app q [BACKTICK] t). reflexivity.
      * destruct b as [|d b].
        -- (* two backticks in a row *)
           cbn [app].
           destruct (IH (List.length (BACKTICK :: t2))
                        ltac:(subst; cbn; lia) (BACKTICK :: t2) eq_refl)
             as (A & B & E & Hq).
           exists (BACKTICK :: A), B. split.
           ++ rewrite (@replace_cons_none code_re code_tpl _ _
                         (exec_code_empty _)).
              cbn [app] in E. rewrite E. reflexivity.
           ++ intros q. unfold prefix_scan in *. cbn [fold_left].
              apply Hq.
        -- (* a span that ends before [M] *)
           unfold no_backtick in Hb. cbn in Hb. apply andb_prop in Hb.
           destruct Hb as [Hd Hbb]. apply negb_true_iff in Hd.
           destruct (IH (List.length t2)
                        ltac:(subst; cbn; rewrite length_app; cbn; lia)
                        t2 eq_refl)
             as (A & B & E & Hq).
           exists (u "<code>" ++ (d :: b) ++ u "</code>" ++ A), B. split.
           ++ cbn [app]. rewrite <- app_assoc. cbn [app].
              rewrite (@replace_cons_some code_re code_tpl _ _ _ _
                         (@exec_code_span d b _ Hd Hbb)).
              rewrite capture_code, skipn_cons.
              change (S (Datatypes.length b)) with (1 + Datatypes.length b).
              rewrite (skipn_past 1 _ b). cbn [skipn].
              rewrite E. unfold code_tpl, expand. cbn [flat_map].
              rewrite app_nil_r. list_norm.
           ++ intros q.
              replace (BACKTICK :: (d :: b) ++ BACKTICK :: t2)
                with ((BACKTICK :: d :: b ++ [BACKTICK]) ++ t2) by list_norm.
              rewrite (prefix_scan_app q _ t2), <- Hq.
              replace (u "<code>" ++ (d :: b) ++ u "</code>" ++ A)
                with (((u "<code>" ++ d :: b) ++ u "</code") ++ [62%N] ++ A)
                by list_norm.
              rewrite app_assoc, (prefix_scan_app q _ A). f_equal.
              rewrite (@prefix_scan_clean q _ 62%N eq_refl).
              change (BACKTICK :: d :: b ++ [BACKTICK])
                with ((BACKTICK :: d :: b) ++ [BACKTICK]).
              rewrite (@prefix_scan_clean q _ BACKTICK eq_refl).
              reflexivity.
    + destruct (IH (List.length t) ltac:(subst; cbn; lia) t eq_refl)
        as (A & B & E & Hq).
      exists (c :: A), B. split.
      * rewrite (@replace_cons_none code_re code_tpl _ _
                   (@exec_head_mismatch _ _ _ _ Hc)).
        rewrite E. reflexivity.
      * intros q. unfold prefix_scan in *. cbn [fold_left]. apply Hq.
Qed.

Lemma format_stages s : formatMessage s = finish (inline s).
Proof. reflexivity. Qed.

(** C7, as the script has it: a line break followed by whitespace, a
    hyphen and one whitespace code unit is replaced by the bullet markup of
    the script, wherever it stands after the first line, when the text
    before the line break does not end in an unfinished bullet prefix (a
    line break followed only by whitespace, or by whitespace and a
    hyphen). The three inline substitutions leave the line break and the
    prefix in place, between what they make of the text around them; the
    bullet markup then stands between what the last two substitutions make
    of those two parts. When every code span that starts before the line
    break also ends there, the two parts are the text before and the text
    after, each formatted on its own. *)
Theorem format_bullet_line pre ws w rest :
  bullet_open pre = false ->
  forallb is_space ws = true ->
  is_space w = true ->
  exists before after,
    inline (pre ++ LF :: ws ++ HYPHEN :: w :: rest)
    = before ++ LF :: ws ++ HYPHEN :: w :: after
    /\ formatMessage (pre ++ LF :: ws ++ HYPHEN :: w :: rest)
       = finish before ++ bullet_markup ++ finish after
    /\ (code_closed pre = true ->
        before = inline pre /\ after = inline rest
        /\ formatMessage (pre ++ LF :: ws ++ HYPHEN :: w :: rest)
           = formatMessage pre ++ bullet_markup ++ formatMessage rest).
Proof.
  intros Hc Hws Hw. apply bullet_open_scan in Hc.
  assert (Hstar : forallb (fun c => negb (c =? ASTERISK)%N)
                          (ws ++ [HYPHEN; w]) = true)
    by (apply prefix_differs; auto).
  assert (Htick : no_backtick (LF :: ws ++ [HYPHEN; w]) = true).
  { unfold no_backtick. cbn [forallb]. apply prefix_differs; auto. }
  set (P := replace em_re em_tpl (replace bold_re bold_tpl pre)).
  set (R := replace em_re em_tpl (replace bold_re bold_tpl rest)).
  assert (HP : forall q, prefix_scan q P = prefix_scan q pre)
    by (intros q; unfold P; rewrite em_prefix_scan, bold_prefix_scan;
        reflexivity).
  assert (Einline : inline (pre ++ LF :: ws ++ HYPHEN :: w :: rest)
                    = replace code_re code_tpl
                        (P ++ (LF :: ws ++ [HYPHEN; w]) ++ R)).
  { unfold inline.
    replace (ws ++ HYPHEN :: w :: rest) with ((ws ++ [HYPHEN; w]) ++ rest)
      by list_norm.
    rewrite bold_line, (bold_copy _ _ Hstar).
    rewrite em_line, (em_copy _ _ Hstar). reflexivity. }
  assert (Hsplit : exists A B,
             replace code_re code_tpl (P ++ (LF :: ws ++ [HYPHEN; w]) ++ R)
             = A ++ (LF :: ws ++ [HYPHEN; w]) ++ B
             /\ prefix_scan NoPrefix A = NoPrefix
             /\ (code_closed pre = true ->
                 A = inline pre /\ B = inline rest)).
  { destruct (code_closed pre) eqn:Hb.
    - exists (replace code_re code_tpl P), (replace code_re code_tpl R).
      split; [|split; [|intros _; split; reflexivity]].
      + apply code_closed_scan in Hb.
        assert (HPb : span_scan Outside P = Outside)
          by (unfold P; rewrite em_span_scan, bold_span_scan; exact Hb).
        rewrite (replace_code_split _ P HPb), (code_copy _ R Htick).
        reflexivity.
      + rewrite code_prefix_scan, HP. exact Hc.
    - destruct (@code_through (LF :: ws ++ [HYPHEN; w]) R Htick
                  ltac:(discriminate) P) as (A & B & E & Hq).
      exists A, B. split; [exact E|]. split; [|discriminate].
      rewrite Hq, HP. exact Hc. }
  destruct Hsplit as (A & B & E & HA & Hclosed).
  assert (Eshape : forall X,
             (LF :: ws ++ [HYPHEN; w]) ++ X = LF :: ws ++ HYPHEN :: w :: X)
    by (intros X; list_norm).
  rewrite !Eshape in E. rewrite Eshape in Einline.
  assert (Efmt : formatMessage (pre ++ LF :: ws ++ HYPHEN :: w :: rest)
                 = finish A ++ bullet_markup ++ finish B).
  { rewrite format_stages, Einline, E. unfold finish.
    rewrite (replace_bullet_at ws w _ Hws Hw _ HA).
    rewrite !replace_newline_app. reflexivity. }
  exists A, B. split; [rewrite Einline; exact E|]. split; [exact Efmt|].
  intros Hb. destruct (Hclosed Hb) as (-> & ->).
  split; [reflexivity|]. split; [reflexivity|]. exact Efmt.
Qed.

Lemma format_bullet_line_witness :
  exists before after,
    inline (u "see `a" ++ LF :: [] ++ HYPHEN :: 32%N :: u "b` end")
    = before ++ LF :: [] ++ HYPHEN :: 32%N :: after
    /\ formatMessage (u "see `a" ++ LF :: [] ++ HYPHEN :: 32%N :: u "b` end")
       = finish before ++ bullet_markup ++ finish after
    /\ (code_closed (u "see `a") = true ->
        before = inline (u "see `a") /\ after = inline (u "b` end")
        /\ formatMessage (u "see `a" ++ LF :: [] ++ HYPHEN :: 32%N
                            :: u "b` end")
           = formatMessage (u "see `a") ++ bullet_markup
             ++ formatMessage (u "b` end")).
Proof.
  exact (@format_bullet_line (u "see `a") [] 32%N (u "b` end")
           eq_refl eq_refl eq_refl).
Defined.

(** A prefix inside a code span that runs over the line break, and one
    after closed spans. *)
Example bullet_inside_code_span :
  formatMessage (u "see `a" ++ [LF] ++ u "- b` end")
  = u "see <code>a" ++ bullet_markup ++ u "b</code> end"
  /\ formatMessage (u "Run `make` - then: " ++ [LF] ++ u "  - **d**")
     = u "Run <code>make</code> - then: " ++ bullet_markup
       ++ u "<strong>d</strong>".
Proof. split; vm_compute; reflexivity. Qed.

(** C6: on the sample text the formatter wraps [a] in strong markup, [b]
    in emphasis markup and [c] in code markup and puts a line break before
    the last line; the glyph it writes in front of [d] is the three code
    units U+00E2 U+20AC U+00A2 of the script, and the bullet character
    U+2022 occurs nowhere in the output. *)
Theorem format_sample_output :
  formatMessage sample_text
  = u "<strong>a</strong> <em>b</em> <code>c</code><br>"
    ++ [226%N; 8364%N; 162%N] ++ u " d"
  /\ existsb (N.eqb BULLET) (formatMessage sample_text) = false.
Proof. split; vm_compute; reflexivity. Qed.

(** ** The widget *)

Lemma stringify_history h :
  JSON_stringify (history_value h) = Some (JArr (map turn_json h)).
Proof.
  unfold history_value. cbn [JSON_stringify]. rewrite map_map.
  reflexivity.
Qed.

(** C1: with a message that is not blank, [sendMessage] appends the user
    turn to the history and issues one request: a POST to [/chat] with the
    JSON content type, whose body holds the trimmed message and the history
    with that turn at its end. The call adds the user entry and the loading
    placeholder to the transcript and clears the input field. *)
Theorem sendMessage_posts now w :
  trim (chatInput w) <> [] ->
  let message := trim (chatInput w) in
  let history := chatHistory w ++ [user_turn message] in
  sendMessage now w =
  (Ok tt,
   {| chatWindow := chatWindow w;
      icon := icon w;
      chatInput := [];
      inputFocused := inputFocused w;
      chatMessages := (chatMessages w ++ [user_entry message]) ++ [placeholder now];
      scrollTop := List.length ((chatMessages w ++ [user_entry message]) ++ [placeholder now]);
      chatHistory := history;
      requests := requests w ++
        [{| url := u "/chat";
            method := u "POST";
            headers := [(u "Content-Type", u "application/json")];
            body := Some (JObj [(u "message", JStr message);
                                (u "history", JArr (map turn_json history))]) |}];
      pending := pending w ++ [loading_id now];
      console := console w;
      page := page w;
      markup_ids := markup_ids w |}).
Proof.
  intros H message history. unfold sendMessage, bind, get.
  fold message. destruct message as [|c m] eqn:E; [contradiction|].
  cbn [is_empty]. 
  unfold addMessage, appendChild, scrollToBottom, modify, push_history, addLoading, fetch, bind, ret, get. cbn.
  rewrite map_map. reflexivity.
Qed.

Lemma sendMessage_posts_witness :
  trim (chatInput (init sample_page)) = u "hi"
  /\ requests (snd (sendMessage 5 (init sample_page)))
     = [{| url := u "/chat";
           method := u "POST";
           headers := [(u "Content-Type", u "application/json")];
           body := Some (JObj [(u "message", JStr (u "hi"));
                               (u "history",
                                JArr [JObj [(u "role", JStr (u "user"));
                                            (u "parts", JArr [JStr (u "hi")])]])])
        |}].
Proof.
  assert (H : trim (chatInput (init sample_page)) <> [])
    by (vm_compute; discriminate).
  split; [reflexivity|].
  rewrite (@sendMessage_posts 5 (init sample_page) H). reflexivity.
Defined.

(** *** Looking an element up and removing it *)

Arguments detach : simpl never.

Lemma detach_chatWindow id w : chatWindow (detach id w) = chatWindow w.
Proof. unfold detach. destruct (search _ _ _); reflexivity. Qed.

Lemma detach_icon id w : icon (detach id w) = icon w.
Proof. unfold detach. destruct (search _ _ _); reflexivity. Qed.

Lemma detach_chatInput id w : chatInput (detach id w) = chatInput w.
Proof. unfold detach. destruct (search _ _ _); reflexivity. Qed.

Lemma detach_inputFocused id w : inputFocused (detach id w) = inputFocused w.
Proof. unfold detach. destruct (search _ _ _); reflexivity. Qed.

Lemma detach_scrollTop id w : scrollTop (detach id w) = scrollTop w.
Proof. unfold detach. destruct (search _ _ _); reflexivity. Qed.

Lemma detach_chatHistory id w : chatHistory (detach id w) = chatHistory w.
Proof. unfold detach. destruct (search _ _ _); reflexivity. Qed.

Lemma detach_requests id w : requests (detach id w) = requests w.
Proof. unfold detach. destruct (search _ _ _); reflexivity. Qed.

Lemma detach_pending id w : pending (detach id w) = pending w.
Proof. unfold detach. destruct (search _ _ _); reflexivity. Qed.

Lemma detach_console id w : console (detach id w) = console w.
Proof. unfold detach. destruct (search _ _ _); reflexivity. Qed.

Lemma detach_markup_ids id w : markup_ids (detach id w) = markup_ids w.
Proof. unfold detach. destruct (search _ _ _); reflexivity. Qed.

Create Rewrite HintDb detach_frame.
#[local] Hint Rewrite detach_chatWindow detach_icon detach_chatInput
  detach_inputFocused detach_scrollTop detach_chatHistory detach_requests
  detach_pending detach_console detach_markup_ids : detach_frame.

(** The lookup does not depend on the history or the pending chains. *)
Lemma detach_set_chatHistory id h w :
  detach id (set_chatHistory h w) = set_chatHistory h (detach id w).
Proof. unfold detach. cbn. destruct (search _ _ _); reflexivity. Qed.

Lemma detach_set_pending id l w :
  detach id (set_pending l w) = set_pending l (detach id w).
Proof. unfold detach. cbn. destruct (search _ _ _); reflexivity. Qed.

(** The fields of a state that went through lookups, brought back to the
    fields of the state before. *)
Ltac frame :=
  cbn;
  repeat (rewrite detach_set_chatHistory || rewrite detach_set_pending);
  cbn; autorewrite with detach_frame; cbn.

(** C2: two calls made at the same time stamp give their placeholders the
    same id. When the second call succeeds first, its reply is rendered
    and its model turn appended, but the lookup finds the placeholder of
    the first call: the placeholder of the second call (the last entry
    before the call ends) is still in the transcript after the reply. *)
Theorem placeholder_survives_success :
  let w1 := run_events [SendClick 5; Edit (u "x"); SendClick 5]
                       (init sample_page) in
  let w2 := step (Settled 1 (JsonParsed (VObj [(u "response", VStr (u "ok"))])))
                 w1 in
  chatMessages w1
  = [user_entry (u "hi"); placeholder 5; user_entry (u "x"); placeholder 5]
  /\ nth_error (pending w1) 1 = Some (loading_id 5)
  /\ chatHistory w2
     = [user_turn (u "hi"); user_turn (u "x"); model_turn (VStr (u "ok"))]
  /\ chatMessages w2
     = [user_entry (u "hi"); user_entry (u "x"); placeholder 5;
        bot_entry (u "ok")].
Proof. vm_compute. repeat split. Qed.

(** C3: two calls made at the same time stamp, the second of which fails
    first: the apology is rendered as plain text, the history keeps the two
    user turns and the error is logged, but the lookup finds the
    placeholder of the first call: the placeholder of the second call is
    still in the transcript after the apology. *)
Theorem placeholder_survives_failure :
  let w1 := run_events [SendClick 5; Edit (u "x"); SendClick 5]
                       (init sample_page) in
  let w2 := step (Settled 1 FetchRejects) w1 in
  chatMessages w1
  = [user_entry (u "hi"); placeholder 5; user_entry (u "x"); placeholder 5]
  /\ nth_error (pending w1) 1 = Some (loading_id 5)
  /\ chatMessages w2
     = [user_entry (u "hi"); user_entry (u "x"); placeholder 5; apology_entry]
  /\ inner apology_entry = TextContent apology
  /\ chatHistory w2 = [user_turn (u "hi"); user_turn (u "x")]
  /\ console w2 = [(u "Error:", NetworkFailure)].
Proof. vm_compute. repeat split. Qed.

(** C5: with an empty or blank input field [sendMessage] returns at once:
    the whole state (document, history, input field, requests) is as
    before and nothing is raised. *)
Theorem blank_input_noop now w :
  trim (chatInput w) = [] -> sendMessage now w = (Ok tt, w).
Proof.
  intros H. unfold sendMessage, bind, get. rewrite H. reflexivity.
Qed.

Lemma blank_input_noop_witness :
  chatInput (init blank_page) = u "   "
  /\ sendMessage 5 (init blank_page) = (Ok tt, init blank_page).
Proof.
  split; [reflexivity|].
  apply (@blank_input_noop 5 (init blank_page)). reflexivity.
Defined.

(** A body that parses but holds no [response]: the model turn is pushed
    before the formatter raises, so the exchange ends in the failure
    callback (apology, logged error) with a model turn in the history. A
    body that parses to [null] ends there too, without a model turn: so
    neither the run of the failure callback nor the parsing of the body
    tells whether a model turn was added. *)
Lemma failed_exchange_appends_turn :
  let w1 := step (SendClick 5) (init sample_page) in
  let w2 := step (Settled 0 (JsonParsed (VObj []))) w1 in
  let w3 := step (Settled 0 (JsonParsed VNull)) w1 in
  chatHistory w1 = [user_turn (u "hi")]
  /\ chatHistory w2 = [user_turn (u "hi"); model_turn VUndefined]
  /\ chatMessages w2 = [user_entry (u "hi"); apology_entry]
  /\ console w2 = [(u "Error:", TypeError)]
  /\ chatHistory w3 = [user_turn (u "hi")]
  /\ chatMessages w3 = [user_entry (u "hi"); apology_entry]
  /\ console w3 = [(u "Error:", TypeError)].
Proof. vm_compute. repeat split. Qed.

(** C4, as the script has it: when the call of an exchange ends, the chain
    appends one model turn and logs nothing if the body holds a string
    [response]; it appends no turn and logs the error if [fetch] rejects,
    the body does not parse, or the body is [null]; for any other parsed
    body the failure callback runs as well (what the history holds then is
    left open). *)
Theorem exchange_history loadingId o w :
  let w' := exec_handler (settle loadingId o) w in
  match o with
  | FetchRejects =>
      console w' = console w ++ [(u "Error:", NetworkFailure)]
      /\ chatHistory w' = chatHistory w
  | JsonRejects =>
      console w' = console w ++ [(u "Error:", BodySyntaxError)]
      /\ chatHistory w' = chatHistory w
  | JsonParsed data =>
      match get_response data with
      | Throw e =>
          console w' = console w ++ [(u "Error:", e)]
          /\ chatHistory w' = chatHistory w
      | Ok (VStr text) =>
          console w' = console w
          /\ chatHistory w' = chatHistory w ++ [model_turn (VStr text)]
      | Ok _ =>
          console w' = console w ++ [(u "Error:", TypeError)]
      end
  end.
Proof.
  destruct o as [| |data]; [frame; split; reflexivity..|].
  unfold exec_handler, settle, catch, on_data, bind, removeLoading, modify, lift.
  destruct (get_response data) as [v|e]; [destruct v|]; frame;
    try reflexivity; split; reflexivity.
Qed.

(** A body without [response]: the transcript gets the apology as plain
    text; no entry shows the text [undefined] or an empty reply. *)
Lemma missing_response_not_rendered :
  let w1 := step (SendClick 5) (init sample_page) in
  let w2 := step (Settled 0 (JsonParsed (VObj [(u "reply", VStr (u "ok"))])))
                 w1 in
  chatMessages w2 = [user_entry (u "hi"); apology_entry]
  /\ inner apology_entry = TextContent apology
  /\ existsb (fun e => match inner e with
                       | InnerHTML h | TextContent h =>
                           jsstring_eqb h (u "undefined") || is_empty h
                       end) (chatMessages w2) = false.
Proof. vm_compute. repeat split. Qed.

(** C9, as the script has it: when reading [response] from the parsed body
    yields [undefined], the formatter raises on it and the failure callback
    takes over: the apology is appended as plain text and the type error is
    logged; the chain itself ends without raising. Both callbacks look the
    loading id up in the document and remove the element they find: the
    apology follows what the two lookups leave of the transcript. *)
Theorem missing_response_apology loadingId data w :
  get_response data = Ok VUndefined ->
  let w' := snd (settle loadingId (JsonParsed data) w) in
  fst (settle loadingId (JsonParsed data) w) = Ok tt
  /\ chatMessages w'
     = chatMessages (detach loadingId (detach loadingId w))
       ++ [apology_entry]
  /\ console w' = console w ++ [(u "Error:", TypeError)].
Proof.
  intros H. unfold settle, catch, on_data, bind, removeLoading, modify, lift.
  rewrite H. frame. auto.
Qed.

Lemma missing_response_apology_witness :
  let w := step (SendClick 5) (init sample_page) in
  let w' := snd (settle (loading_id 5) (JsonParsed (VObj [])) w) in
  get_response (VObj []) = Ok VUndefined
  /\ chatMessages w' = [user_entry (u "hi"); apology_entry]
  /\ console w' = [(u "Error:", TypeError)].
Proof.
  cbv zeta. split; [reflexivity|].
  destruct (@missing_response_apology (loading_id 5) (VObj [])
              (step (SendClick 5) (init sample_page)) eq_refl)
    as (_ & Ht & Hc).
  rewrite Ht, Hc. split; reflexivity.
Defined.

Lemma wf_user m : wf_turn {| role := u "user"; parts := [VStr m] |}.
Proof. split; [left|]; reflexivity. Qed.

Lemma wf_model v : wf_turn {| role := u "model"; parts := [v] |}.
Proof. split; [right|]; reflexivity. Qed.

Lemma grows_refl w w' : chatHistory w' = chatHistory w -> grows w w'.
Proof. intros E. exists []. rewrite app_nil_r. auto. Qed.

Lemma grows_one w w' t :
  chatHistory w' = chatHistory w ++ [t] -> wf_turn t -> grows w w'.
Proof. intros E H. exists [t]. auto. Qed.

Lemma grows_trans a b c : grows a b -> grows b c -> grows a c.
Proof.
  intros (x & Ex & Hx) (y & Ey & Hy). exists (x ++ y).
  rewrite Ey, Ex, app_assoc. split; [reflexivity|]. apply Forall_app; auto.
Qed.

Lemma sendMessage_grows now w : grows w (exec_handler (sendMessage now) w).
Proof.
  unfold exec_handler, sendMessage, bind, get.
  destruct (trim (chatInput w)) as [|c m]; cbn.
  - apply grows_refl. reflexivity.
  - eapply grows_one; [reflexivity|apply wf_user].
Qed.

Lemma settle_grows loadingId o w : grows w (exec_handler (settle loadingId o) w).
Proof.
  destruct o as [| |data]; try (apply grows_refl; frame; reflexivity).
  unfold exec_handler, settle, catch, on_data, bind, removeLoading, modify, lift.
  destruct (get_response data) as [v|e];
    [|apply grows_refl; frame; reflexivity].
  destruct v; (eapply grows_one; [frame; reflexivity|apply wf_model]).
Qed.

(** The end of a call leaves layout, input field, requests, pending chains
    and parser as they are. *)
Lemma settle_frame id o w :
  let w' := exec_handler (settle id o) w in
  chatWindow w' = chatWindow w /\ icon w' = icon w
  /\ chatInput w' = chatInput w /\ inputFocused w' = inputFocused w
  /\ requests w' = requests w /\ pending w' = pending w
  /\ markup_ids w' = markup_ids w.
Proof.
  destruct o as [| |data]; [frame; repeat split; reflexivity..|].
  unfold exec_handler, settle, catch, on_data, bind, removeLoading, modify, lift.
  destruct (get_response data) as [v|e]; [destruct v|]; frame;
    repeat split; reflexivity.
Qed.

Lemma step_grows e w : grows w (step e w).
Proof.
  destruct e; cbn [step].
  - apply grows_refl. unfold exec_handler, bubble_click, bind, modify, get.
    cbn. match goal with |- context [if ?b then _ else _] => destruct b end;
      reflexivity.
  - apply grows_refl. reflexivity.
  - apply grows_refl. unfold exec_handler, max_click, bind, modify, get.
    cbn. match goal with |- context [if ?b then _ else _] => destruct b end;
      reflexivity.
  - apply sendMessage_grows.
  - unfold input_keypress. destruct (jsstring_eqb key (u "Enter")).
    + apply sendMessage_grows.
    + apply grows_refl. reflexivity.
  - apply grows_refl. reflexivity.
  - apply grows_refl. reflexivity.
  - destruct (nth_error (pending w) n) as [id|]; [|apply grows_refl; reflexivity].
    eapply grows_trans; [|apply settle_grows]. apply grows_refl. reflexivity.
Qed.

Lemma run_grows es : forall w, grows w (run_events es w).
Proof.
  induction es as [|e es IH]; intros w; cbn.
  - apply grows_refl. reflexivity.
  - eapply grows_trans; [apply step_grows|apply IH].
Qed.

(** C10: every event keeps the turns of the history in place and adds, at
    its end, only turns whose role is [user] or [model] and whose [parts]
    hold one element; so it is along every run, and every turn of a history
    that started empty has that form. *)
Theorem history_append_only :
  (forall e w, exists added,
      chatHistory (step e w) = chatHistory w ++ added /\ Forall wf_turn added)
  /\ (forall es w, exists added,
      chatHistory (run_events es w) = chatHistory w ++ added
      /\ Forall wf_turn added)
  /\ (forall es h, Forall wf_turn (chatHistory (run_events es (init h)))).
Proof.
  split; [exact step_grows|]. split; [exact (fun es w => run_grows es w)|].
  intros es h. destruct (run_grows es (init h)) as (added & E & H).
  rewrite E. exact H.
Qed.

Lemma jsstring_eqb_spec a b : reflect (a = b) (jsstring_eqb a b).
Proof.
  unfold jsstring_eqb. destruct (list_eq_dec N.eq_dec a b); constructor; assumption.
Qed.

Lemma jsstring_eqb_refl a : jsstring_eqb a a = true.
Proof. destruct (jsstring_eqb_spec a a); congruence. Qed.

Lemma jsstring_eqb_sym a b : jsstring_eqb a b = jsstring_eqb b a.
Proof.
  destruct (jsstring_eqb_spec a b), (jsstring_eqb_spec b a); congruence.
Qed.

Lemma contains_app t l l' :
  contains t (l ++ l') = contains t l || contains t l'.
Proof. apply existsb_app. Qed.

Lemma contains_add t x l :
  contains t (add x l) = jsstring_eqb t x || contains t l.
Proof.
  unfold add. destruct (contains x l) eqn:E.
  - destruct (jsstring_eqb_spec t x) as [->|]; [rewrite E|]; reflexivity.
  - rewrite contains_app. cbn. rewrite orb_false_r. apply orb_comm.
Qed.

Lemma contains_remove t x l :
  contains t (remove x l) = negb (jsstring_eqb t x) && contains t l.
Proof.
  unfold contains, remove. induction l as [|y l IH]; cbn.
  - now rewrite andb_false_r.
  - destruct (jsstring_eqb_spec x y) as [<-|Hxy]; cbn.
    + rewrite IH. destruct (jsstring_eqb t x); reflexivity.
    + rewrite IH. destruct (jsstring_eqb_spec t x) as [->|]; cbn; [|reflexivity].
      destruct (jsstring_eqb_spec x y); [contradiction|reflexivity].
Qed.

Lemma contains_toggle t x l :
  contains t (toggle x l)
  = if jsstring_eqb t x then negb (contains x l) else contains t l.
Proof.
  unfold toggle. destruct (contains x l) eqn:E.
  - rewrite contains_remove.
    destruct (jsstring_eqb_spec t x) as [->|]; reflexivity.
  - rewrite contains_app. cbn. rewrite orb_false_r.
    destruct (jsstring_eqb_spec t x) as [->|].
    + rewrite E. reflexivity.
    + apply orb_false_r.
Qed.

Lemma bubble_click_state w :
  step BubbleClick w =
  let w1 := set_chatWindow (toggle (u "d-none") (chatWindow w)) w in
  if contains (u "d-none") (chatWindow w)
  then set_scrollTop (List.length (chatMessages w)) (set_inputFocused true w1)
  else w1.
Proof.
  cbn [step]. unfold exec_handler, bubble_click, bind, modify, get.
  cbn -[toggle contains u].
  rewrite contains_toggle, jsstring_eqb_refl.
  destruct (contains (u "d-none") (chatWindow w)); reflexivity.
Qed.

Lemma bubble_twice w :
  isOpen w = false ->
  let w' := step BubbleClick (step BubbleClick w) in
  isOpen w' = false
  /\ same_tokens (chatWindow w') (chatWindow w)
  /\ icon w' = icon w /\ chatInput w' = chatInput w
  /\ chatMessages w' = chatMessages w /\ chatHistory w' = chatHistory w
  /\ requests w' = requests w /\ pending w' = pending w
  /\ console w' = console w.
Proof.
  unfold isOpen. intros H. apply negb_false_iff in H.
  rewrite (bubble_click_state w). cbv zeta. rewrite H.
  rewrite bubble_click_state. cbv zeta. cbn -[toggle contains u].
  rewrite contains_toggle, jsstring_eqb_refl, H. cbn -[toggle contains u].
  repeat split.
  - rewrite !contains_toggle, jsstring_eqb_refl, H. reflexivity.
  - intros t. rewrite !contains_toggle, jsstring_eqb_refl, H.
    destruct (jsstring_eqb_spec t (u "d-none")) as [->|]; [|reflexivity].
    cbn. symmetry. exact H.
Qed.

(** Comparisons of two class names of the script are evaluated. *)
Ltac eval_tokens :=
  repeat match goal with
    | |- context [jsstring_eqb (u ?a) (u ?b)] =>
        let v := eval vm_compute in (jsstring_eqb (u a) (u b)) in
        change (jsstring_eqb (u a) (u b)) with v
    end.

Lemma max_click_state w :
  step MaxClick w =
  let w1 := set_chatWindow (toggle (u "maximized") (chatWindow w)) w in
  if contains (u "maximized") (chatWindow w)
  then set_icon (add (u "bi-arrows-fullscreen")
                     (remove (u "bi-fullscreen-exit") (icon w))) w1
  else set_icon (add (u "bi-fullscreen-exit")
                     (remove (u "bi-arrows-fullscreen") (icon w))) w1.
Proof.
  cbn [step]. unfold exec_handler, max_click, bind, modify, get.
  cbn -[toggle contains add remove u].
  rewrite contains_toggle, jsstring_eqb_refl.
  destruct (contains (u "maximized") (chatWindow w)); reflexivity.
Qed.

Lemma max_click_glyph w : glyph_matches w = true -> glyph_matches (step MaxClick w) = true.
Proof.
  unfold glyph_matches, isMaximized. intros H. rewrite max_click_state. cbv zeta.
  destruct (contains (u "maximized") (chatWindow w)) eqn:E;
    cbn -[toggle contains add remove u];
    rewrite contains_toggle, jsstring_eqb_refl, E; cbn -[toggle contains add remove u];
    rewrite !contains_add, !contains_remove, jsstring_eqb_refl; reflexivity.
Qed.

Lemma max_twice w :
  glyph_matches w = true ->
  let w' := step MaxClick (step MaxClick w) in
  isMaximized w' = isMaximized w
  /\ same_tokens (chatWindow w') (chatWindow w)
  /\ same_tokens (icon w') (icon w)
  /\ chatInput w' = chatInput w /\ inputFocused w' = inputFocused w
  /\ chatMessages w' = chatMessages w /\ scrollTop w' = scrollTop w
  /\ chatHistory w' = chatHistory w /\ requests w' = requests w
  /\ pending w' = pending w /\ console w' = console w.
Proof.
  intros H.
  assert (Hw : same_tokens (chatWindow (step MaxClick (step MaxClick w)))
                           (chatWindow w)).
  { intros t. rewrite !max_click_state. cbv zeta.
    destruct (contains (u "maximized") (chatWindow w)) eqn:E;
      cbn -[toggle contains add remove u];
      rewrite contains_toggle, jsstring_eqb_refl, E;
      cbn -[toggle contains add remove u];
      rewrite !contains_toggle, E;
      destruct (jsstring_eqb_spec t (u "maximized")) as [->|];
      eval_tokens; cbn; congruence. }
  assert (Hi : same_tokens (icon (step MaxClick (step MaxClick w))) (icon w)).
  { intros t. unfold glyph_matches, isMaximized in H.
    rewrite !max_click_state. cbv zeta.
    destruct (contains (u "maximized") (chatWindow w)) eqn:E;
      cbn -[toggle contains add remove u];
      rewrite contains_toggle, jsstring_eqb_refl, E;
      cbn -[toggle contains add remove u];
      repeat (rewrite contains_add || rewrite contains_remove);
      apply andb_prop in H; destruct H as [H1 H2];
      apply negb_true_iff in H2;
      destruct (jsstring_eqb_spec t (u "bi-arrows-fullscreen")) as [Ea|Na];
      destruct (jsstring_eqb_spec t (u "bi-fullscreen-exit")) as [Ee|Ne];
      try (rewrite Ea in Ee; discriminate Ee); subst;
      eval_tokens; cbn; congruence. }
  cbv zeta. split; [unfold isMaximized; apply Hw|].
  split; [exact Hw|]. split; [exact Hi|].
  rewrite !max_click_state. cbv zeta.
  destruct (contains (u "maximized") (chatWindow w)) eqn:E;
    cbn -[toggle contains add remove u];
    rewrite contains_toggle, jsstring_eqb_refl, E;
    cbn -[toggle contains add remove u]; repeat split.
Qed.

Lemma close_twice w : step CloseClick (step CloseClick w) = step CloseClick w.
Proof.
  cbn [step]. unfold exec_handler, close_click, modify.
  cbn -[add contains u]. unfold set_chatWindow. cbn -[add contains u].
  f_equal. unfold add at 1. rewrite contains_add, jsstring_eqb_refl.
  reflexivity.
Qed.

Lemma close_repeated n w :
  Nat.iter n (step CloseClick) (step CloseClick w) = step CloseClick w.
Proof.
  induction n as [|n IH]; [reflexivity|].
  rewrite Nat.iter_succ, IH. apply close_twice.
Qed.

Lemma glyph_step e w : glyph_matches w = true -> glyph_matches (step e w) = true.
Proof.
  intros H. destruct e; cbn [step]; try exact H.
  - rewrite <- H. fold (step BubbleClick w). rewrite bubble_click_state. cbv zeta.
    unfold glyph_matches, isMaximized.
    destruct (contains (u "d-none") (chatWindow w));
      cbn -[toggle contains u]; rewrite contains_toggle; reflexivity.
  - rewrite <- H. unfold exec_handler, close_click, modify.
    unfold glyph_matches, isMaximized. cbn -[add contains u].
    rewrite contains_add. reflexivity.
  - apply (@max_click_glyph w H).
  - rewrite <- H. unfold exec_handler, sendMessage, bind, get.
    destruct (trim (chatInput w)); reflexivity.
  - rewrite <- H. unfold input_keypress, exec_handler, sendMessage, bind, get.
    destruct (jsstring_eqb key (u "Enter")); [|reflexivity].
    destruct (trim (chatInput w)); reflexivity.
  - destruct (nth_error (pending w) n) as [id|]; [|exact H].
    rewrite <- H. unfold glyph_matches, isMaximized.
    destruct (settle_frame id o (set_pending (remove_nth n (pending w)) w))
      as (Hc & Hi & _).
    rewrite Hc, Hi. reflexivity.
Qed.

Lemma reachable_glyph w : reachable w -> glyph_matches w = true.
Proof.
  induction 1 as [h Hh|e w Hw IH].
  - unfold glyph_matches, isMaximized. cbn -[contains u]. rewrite Hh. reflexivity.
  - apply glyph_step. exact IH.
Qed.

(** C8: from a closed panel two clicks on the bubble give a closed panel
    again, with the same class tokens, history, transcript and pending
    calls; two clicks on the maximize button give back the layout flag and,
    when the icon showed the glyph of the layout, the tokens of the icon;
    a click on the close button after another one changes nothing, however
    often it is repeated. *)
Theorem toggles_self_inverse w :
  (isOpen w = false ->
   let w' := step BubbleClick (step BubbleClick w) in
   isOpen w' = false
   /\ same_tokens (chatWindow w') (chatWindow w)
   /\ icon w' = icon w /\ chatInput w' = chatInput w
   /\ chatMessages w' = chatMessages w /\ chatHistory w' = chatHistory w
   /\ requests w' = requests w /\ pending w' = pending w
   /\ console w' = console w)
  /\ (glyph_matches w = true ->
      let w' := step MaxClick (step MaxClick w) in
      isMaximized w' = isMaximized w
      /\ same_tokens (chatWindow w') (chatWindow w)
      /\ same_tokens (icon w') (icon w)
      /\ chatInput w' = chatInput w /\ inputFocused w' = inputFocused w
      /\ chatMessages w' = chatMessages w /\ scrollTop w' = scrollTop w
      /\ chatHistory w' = chatHistory w /\ requests w' = requests w
      /\ pending w' = pending w /\ console w' = console w)
  /\ (forall n,
        Nat.iter n (step CloseClick) (step CloseClick w) = step CloseClick w).
Proof.
  split; [exact (@bubble_twice w)|]. split; [exact (@max_twice w)|].
  intros n. apply close_repeated.
Qed.

Lemma toggles_self_inverse_witness :
  let w := init sample_page in
  isOpen w = false
  /\ glyph_matches w = true
  /\ isOpen (step BubbleClick (step BubbleClick w)) = false
  /\ isMaximized (step MaxClick (step MaxClick w)) = false
  /\ icon (step MaxClick (step MaxClick w)) = icon w
  /\ step CloseClick (step CloseClick w) = step CloseClick w.
Proof.
  cbv zeta.
  destruct (toggles_self_inverse (init sample_page)) as (Hb & Hm & Hc).
  split; [reflexivity|]. split; [reflexivity|].
  split; [exact (proj1 (Hb eq_refl))|].
  split; [exact (proj1 (Hm eq_refl))|].
  split; [reflexivity|].
  exact (Hc 1).
Defined.

(** ** Further properties of the formatter *)

Lemma lacks_app x a b : lacks x (a ++ b) = lacks x a && lacks x b.
Proof. apply forallb_app. Qed.

Lemma lacks_tail x c t : lacks x (c :: t) = true -> lacks x t = true.
Proof. cbn. intros H. apply andb_prop in H. tauto. Qed.

Lemma lacks_head x c t : lacks x (c :: t) = true -> (c =? x)%N = false.
Proof.
  cbn. intros H. apply andb_prop in H. destruct H as [H _].
  now apply negb_true_iff.
Qed.

Lemma lacks_not_in x s : lacks x s = true -> ~ In x s.
Proof.
  unfold lacks. rewrite forallb_forall. intros H Hin.
  specialize (H x Hin). rewrite N.eqb_refl in H. discriminate.
Qed.

(** A pattern that starts with a literal leaves text without it alone. *)
Lemma replace_lacks x r tpl s :
  lacks x s = true -> replace (Term (Lit x) Once :: r) tpl s = s.
Proof.
  intros H. rewrite <- (app_nil_r s) at 1.
  rewrite (@replace_copy_prefix x r tpl s [] H).
  rewrite replace_nil by reflexivity. apply app_nil_r.
Qed.

Lemma exec_bullet_needs_hyphen s m :
  exec bullet_re s = Some m -> In HYPHEN s.
Proof.
  unfold exec. change bullet_re with
    (lits [LF] ++ Term SpaceChar StarGreedy
       :: lits [HYPHEN] ++ [Term SpaceChar Once]).
  intros H. apply (@run_lits [LF]) in H. destruct H as (s1 & -> & H).
  apply run_quant in H. destruct H as (body & s2 & -> & H).
  apply (@run_lits [HYPHEN]) in H. destruct H as (s3 & -> & _).
  apply in_or_app. right. apply in_or_app. right. left. reflexivity.
Qed.

Lemma replace_bullet_lacks : forall s,
  lacks HYPHEN s = true -> replace bullet_re bullet_tpl s = s.
Proof.
  induction s as [|c t IH]; intros H; [reflexivity|].
  destruct (exec bullet_re (c :: t)) as [m|] eqn:E.
  - apply exec_bullet_needs_hyphen in E.
    destruct (@lacks_not_in _ _ H E).
  - rewrite (@replace_cons_none _ bullet_tpl _ _ E).
    rewrite IH; [reflexivity|exact (@lacks_tail _ _ _ H)].
Qed.

(** X1: on a text without asterisk, backtick and hyphen the formatter
    changes nothing but the line feeds, each of which becomes a line break
    tag. *)
Theorem format_plain_text s :
  lacks ASTERISK s = true -> lacks BACKTICK s = true ->
  lacks HYPHEN s = true ->
  formatMessage s = flat_map break_unit s.
Proof.
  intros Ha Hb Hh. unfold formatMessage.
  rewrite (@replace_lacks ASTERISK _ bold_tpl s Ha : replace bold_re _ _ = _).
  rewrite (@replace_lacks ASTERISK _ em_tpl s Ha : replace em_re _ _ = _).
  rewrite (@replace_lacks BACKTICK _ code_tpl s Hb : replace code_re _ _ = _).
  rewrite (replace_bullet_lacks s Hh).
  apply replace_newline.
Qed.

Lemma format_plain_text_witness :
  formatMessage (u "See you" ++ [LF] ++ u "at 5.") = u "See you<br>at 5.".
Proof.
  rewrite (@format_plain_text (u "See you" ++ [LF] ++ u "at 5.")
             eq_refl eq_refl eq_refl).
  reflexivity.
Defined.

Lemma flat_map_break_id : forall s,
  lacks LF s = true -> flat_map break_unit s = s.
Proof.
  induction s as [|c t IH]; intros H; [reflexivity|].
  cbn [flat_map]. unfold break_unit at 1. rewrite (@lacks_head _ _ _ H).
  rewrite IH; [reflexivity|exact (@lacks_tail _ _ _ H)].
Qed.

(** X2: the output of the formatter holds no line feed, whatever the input.
    *)
Theorem format_no_line_feed s : lacks LF (formatMessage s) = true.
Proof.
  unfold formatMessage. rewrite replace_newline.
  generalize (replace bullet_re bullet_tpl
                (replace code_re code_tpl
                   (replace em_re em_tpl (replace bold_re bold_tpl s)))).
  intros t. induction t as [|c t IH]; [reflexivity|].
  cbn [flat_map]. rewrite lacks_app, IH, andb_true_r.
  unfold break_unit. destruct (c =? LF)%N eqn:E; [reflexivity|].
  cbn. rewrite E. reflexivity.
Qed.

Lemma inline_plain_parts s :
  inline_plain s = true ->
  lacks ASTERISK s = true /\ lacks BACKTICK s = true
  /\ forallb (fun c => negb (is_line_terminator c)) s = true
  /\ lacks LF s = true.
Proof.
  unfold inline_plain. intros H. apply andb_prop in H. destruct H as [H Ht].
  apply andb_prop in H. destruct H as [Ha Hb]. repeat split; try assumption.
  unfold lacks. rewrite forallb_forall in *. intros c Hc.
  specialize (Ht c Hc). apply negb_true_iff in Ht. apply negb_true_iff.
  destruct (N.eqb_spec c LF) as [->|]; [discriminate Ht|reflexivity].
Qed.

Section LazyStar.
Variable p : N -> bool.
Variable k : jsstring -> nat -> option mresult.
Variable x : N.
Hypothesis k_needs_x : forall c t j, (c =? x)%N = false -> k (c :: t) j = None.

Lemma star_lazy_skip : forall body s i,
  forallb p body = true -> lacks x body = true ->
  star_lazy p k (body ++ s) i = star_lazy p k s (i + List.length body).
Proof.
  intros body. induction body as [|c body IH]; intros s i Hp Hx.
  - cbn. rewrite Nat.add_0_r. reflexivity.
  - cbn in Hp. apply andb_prop in Hp. destruct Hp as [Hc Hp].
    cbn [app star_lazy]. rewrite (k_needs_x _ _ _ (@lacks_head _ _ _ Hx)), Hc.
    rewrite (IH s (S i) Hp (@lacks_tail _ _ _ Hx)).
    cbn [List.length]. f_equal. lia.
Qed.

Lemma star_lazy_fail : forall s i,
  (forall j, k [] j = None) -> lacks x s = true -> star_lazy p k s i = None.
Proof.
  induction s as [|c t IH]; intros i Hnil Hx; cbn [star_lazy].
  - rewrite Hnil. reflexivity.
  - rewrite (k_needs_x _ _ _ (@lacks_head _ _ _ Hx)).
    destruct (p c); [|reflexivity].
    apply IH; [exact Hnil|exact (@lacks_tail _ _ _ Hx)].
Qed.
End LazyStar.

Lemma exec_bold_span body post :
  forallb (fun c => negb (is_line_terminator c)) body = true ->
  lacks ASTERISK body = true ->
  exec bold_re (ASTERISK :: ASTERISK :: body ++ ASTERISK :: ASTERISK :: post)
  = Some (4 + List.length body, (2, 2 + List.length body)).
Proof.
  intros Hd Ha. unfold exec, bold_re. cbn [run].
  change (atom_matches (Lit ASTERISK) ASTERISK) with true. cbv iota.
  rewrite (@star_lazy_skip (atom_matches AnyChar) _ ASTERISK); try assumption.
  - cbn [star_lazy run].
    change (atom_matches (Lit ASTERISK) ASTERISK) with true. cbv iota.
    do 2 f_equal; lia.
  - intros c t j Hc. cbn [run].
    change (atom_matches (Lit ASTERISK) c) with (c =? ASTERISK)%N.
    rewrite Hc. reflexivity.
Qed.

Lemma exec_em_span body post :
  forallb (fun c => negb (is_line_terminator c)) body = true ->
  lacks ASTERISK body = true ->
  exec em_re (ASTERISK :: body ++ ASTERISK :: post)
  = Some (2 + List.length body, (1, 1 + List.length body)).
Proof.
  intros Hd Ha. unfold exec, em_re. cbn [run].
  change (atom_matches (Lit ASTERISK) ASTERISK) with true. cbv iota.
  rewrite (@star_lazy_skip (atom_matches AnyChar) _ ASTERISK); try assumption.
  - cbn [star_lazy run].
    change (atom_matches (Lit ASTERISK) ASTERISK) with true. cbv iota.
    do 2 f_equal; lia.
  - intros c t j Hc. cbn [run].
    change (atom_matches (Lit ASTERISK) c) with (c =? ASTERISK)%N.
    rewrite Hc. reflexivity.
Qed.

(** The bold pattern needs two asterisks to start and two more to end. *)
Lemma exec_bold_short t :
  lacks ASTERISK t = true ->
  exec bold_re (ASTERISK :: t) = None
  /\ exec bold_re (ASTERISK :: ASTERISK :: t) = None.
Proof.
  intros H. split.
  - unfold exec, bold_re. cbn [run].
    change (atom_matches (Lit ASTERISK) ASTERISK) with true. cbv iota.
    destruct t as [|c t]; [reflexivity|].
    change (atom_matches (Lit ASTERISK) c) with (c =? ASTERISK)%N.
    rewrite (@lacks_head _ _ _ H). reflexivity.
  - unfold exec, bold_re. cbn [run].
    change (atom_matches (Lit ASTERISK) ASTERISK) with true. cbv iota.
    apply (@star_lazy_fail (atom_matches AnyChar) _ ASTERISK);
      [|reflexivity|exact H].
    intros c t' j Hc. cbn [run].
    change (atom_matches (Lit ASTERISK) c) with (c =? ASTERISK)%N.
    rewrite Hc. reflexivity.
Qed.

Lemma capture_mid (d : jsstring) body Y :
  capture (d ++ body ++ Y)
          (List.length d, List.length d + List.length body) = body.
Proof.
  unfold capture. cbn [fst snd].
  rewrite skipn_app, skipn_all, Nat.sub_diag. cbn [skipn app].
  replace (_ - _) with (List.length body) by lia.
  rewrite firstn_app, firstn_all, Nat.sub_diag. cbn. apply app_nil_r.
Qed.

(** One match between text that cannot start a match. *)
Lemma replace_one_span x r tpl pre c X post g body :
  lacks x pre = true -> lacks x post = true ->
  exec (Term (Lit x) Once :: r) (c :: X ++ post)
  = Some (S (List.length X), g) ->
  capture (c :: X ++ post) g = body ->
  replace (Term (Lit x) Once :: r) tpl (pre ++ c :: X ++ post)
  = pre ++ expand tpl body ++ post.
Proof.
  intros Hpre Hpost E Hcap.
  rewrite (@replace_copy_prefix x r tpl pre _ Hpre). f_equal.
  rewrite (@replace_cons_some _ tpl _ _ _ _ E), Hcap. f_equal.
  change (List.length X) with (0 + List.length X).
  rewrite (skipn_past 0 post X). cbn [skipn].
  apply replace_lacks. exact Hpost.
Qed.

Lemma lacks_of_plain s :
  inline_plain s = true -> lacks LF s = true.
Proof. intros H. apply inline_plain_parts in H. tauto. Qed.

Ltac split_plain H :=
  let Ha := fresh "Ha" in let Hb := fresh "Hb" in
  let Ht := fresh "Ht" in let Hl := fresh "Hl" in
  apply inline_plain_parts in H; destruct H as (Ha & Hb & Ht & Hl).

(** The later substitutions leave a line without their markers alone. *)
Lemma later_stages_id s :
  lacks LF s = true ->
  replace newline_re br_tpl (replace bullet_re bullet_tpl s) = s.
Proof.
  intros H.
  rewrite (@replace_lacks LF _ bullet_tpl s H : replace bullet_re _ _ = _).
  exact (@replace_lacks LF _ br_tpl s H).
Qed.

(** X3: one span between double asterisks, with no asterisk, backtick or
    line terminator in or around it, becomes strong markup around the same
    text, and the text around it is kept. *)
Theorem format_bold_span pre body post :
  inline_plain pre = true -> inline_plain body = true ->
  inline_plain post = true ->
  formatMessage (pre ++ u "**" ++ body ++ u "**" ++ post)
  = pre ++ u "<strong>" ++ body ++ u "</strong>" ++ post.
Proof.
  intros Hpre Hbody Hpost.
  split_plain Hpre. split_plain Hbody. split_plain Hpost.
  unfold formatMessage.
  assert (E1 : replace bold_re bold_tpl (pre ++ u "**" ++ body ++ u "**" ++ post)
               = pre ++ u "<strong>" ++ body ++ u "</strong>" ++ post).
  { replace (u "**" ++ body ++ u "**" ++ post)
      with (ASTERISK :: (ASTERISK :: body ++ [ASTERISK; ASTERISK]) ++ post)
      by (cbn [app]; rewrite <- app_assoc; reflexivity).
    replace (pre ++ u "<strong>" ++ body ++ u "</strong>" ++ post)
      with (pre ++ expand bold_tpl body ++ post)
      by (unfold bold_tpl; rewrite expand_wrap, <- !app_assoc; reflexivity).
    apply (@replace_one_span ASTERISK _ bold_tpl pre ASTERISK
             (ASTERISK :: body ++ [ASTERISK; ASTERISK]) post
             (2, 2 + List.length body) body); try assumption.
    - cbn [app]. rewrite <- app_assoc. cbn [app].
      refine (eq_trans (@exec_bold_span body post _ _) _); try assumption.
      do 2 f_equal. cbn [List.length]. rewrite length_app. cbn. lia.
    - cbn [app]. rewrite <- app_assoc.
      exact (capture_mid [ASTERISK; ASTERISK] body _). }
  rewrite E1.
  set (T := pre ++ u "<strong>" ++ body ++ u "</strong>" ++ post).
  assert (Ta : lacks ASTERISK T = true)
    by (unfold T; rewrite !lacks_app, Ha, Ha0, Ha1; reflexivity).
  assert (Tb : lacks BACKTICK T = true)
    by (unfold T; rewrite !lacks_app, Hb, Hb0, Hb1; reflexivity).
  assert (Tl : lacks LF T = true)
    by (unfold T; rewrite !lacks_app, Hl, Hl0, Hl1; reflexivity).
  rewrite (@replace_lacks ASTERISK _ em_tpl T Ta : replace em_re _ _ = _).
  rewrite (@replace_lacks BACKTICK _ code_tpl T Tb : replace code_re _ _ = _).
  apply later_stages_id. exact Tl.
Qed.

Lemma format_bold_span_witness :
  formatMessage (u "rank **1200** or better")
  = u "rank <strong>1200</strong> or better".
Proof.
  exact (@format_bold_span (u "rank ") (u "1200") (u " or better")
           eq_refl eq_refl eq_refl).
Defined.

Lemma exec_bold_one c t :
  (c =? ASTERISK)%N = false -> exec bold_re (ASTERISK :: c :: t) = None.
Proof.
  intros H. unfold exec, bold_re. cbn [run].
  change (atom_matches (Lit ASTERISK) ASTERISK) with true. cbv iota.
  change (atom_matches (Lit ASTERISK) c) with (c =? ASTERISK)%N.
  rewrite H. reflexivity.
Qed.

(** Two single asterisks are no bold span. *)
Lemma replace_bold_lone pre body post :
  lacks ASTERISK pre = true -> lacks ASTERISK body = true ->
  lacks ASTERISK post = true ->
  replace bold_re bold_tpl (pre ++ ASTERISK :: body ++ ASTERISK :: post)
  = pre ++ ASTERISK :: body ++ ASTERISK :: post.
Proof.
  intros Hpre Hbody Hpost.
  assert (Htail : replace bold_re bold_tpl (ASTERISK :: post)
                  = ASTERISK :: post).
  { rewrite (@replace_cons_none _ bold_tpl _ _
               (proj1 (exec_bold_short post Hpost))).
    f_equal. exact (@replace_lacks ASTERISK _ bold_tpl post Hpost). }
  rewrite (bold_copy pre _ Hpre).
  f_equal. destruct body as [|c b].
  - cbn [app].
    rewrite (@replace_cons_none _ bold_tpl _ _
               (proj2 (exec_bold_short post Hpost))).
    f_equal. exact Htail.
  - cbn [app].
    rewrite (@replace_cons_none _ bold_tpl _ _
               (@exec_bold_one c _ (@lacks_head _ _ _ Hbody))).
    f_equal.
    change (c :: b ++ ASTERISK :: post) with ((c :: b) ++ ASTERISK :: post).
    rewrite (bold_copy (c :: b) _ Hbody).
    f_equal. exact Htail.
Qed.

(** X4: one span between single asterisks, with no asterisk, backtick or
    line terminator in or around it, becomes emphasis markup around the same
    text, and the text around it is kept. *)
Theorem format_em_span pre body post :
  inline_plain pre = true -> inline_plain body = true ->
  inline_plain post = true ->
  formatMessage (pre ++ u "*" ++ body ++ u "*" ++ post)
  = pre ++ u "<em>" ++ body ++ u "</em>" ++ post.
Proof.
  intros Hpre Hbody Hpost.
  split_plain Hpre. split_plain Hbody. split_plain Hpost.
  unfold formatMessage.
  change (pre ++ u "*" ++ body ++ u "*" ++ post)
    with (pre ++ ASTERISK :: body ++ ASTERISK :: post).
  rewrite (replace_bold_lone pre body post Ha Ha0 Ha1).
  assert (E1 : replace em_re em_tpl (pre ++ ASTERISK :: body ++ ASTERISK :: post)
               = pre ++ u "<em>" ++ body ++ u "</em>" ++ post).
  { replace (body ++ ASTERISK :: post) with ((body ++ [ASTERISK]) ++ post)
      by (rewrite <- app_assoc; reflexivity).
    replace (pre ++ u "<em>" ++ body ++ u "</em>" ++ post)
      with (pre ++ expand em_tpl body ++ post)
      by (unfold em_tpl; rewrite expand_wrap, <- !app_assoc; reflexivity).
    apply (@replace_one_span ASTERISK _ em_tpl pre ASTERISK
             (body ++ [ASTERISK]) post (1, 1 + List.length body) body);
      try assumption.
    - rewrite <- app_assoc. cbn [app].
      refine (eq_trans (@exec_em_span body post _ _) _); try assumption.
      do 2 f_equal. rewrite length_app. cbn. lia.
    - rewrite <- app_assoc.
      exact (capture_mid [ASTERISK] body _). }
  rewrite E1.
  set (T := pre ++ u "<em>" ++ body ++ u "</em>" ++ post).
  assert (Tb : lacks BACKTICK T = true)
    by (unfold T; rewrite !lacks_app, Hb, Hb0, Hb1; reflexivity).
  assert (Tl : lacks LF T = true)
    by (unfold T; rewrite !lacks_app, Hl, Hl0, Hl1; reflexivity).
  rewrite (@replace_lacks BACKTICK _ code_tpl T Tb : replace code_re _ _ = _).
  apply later_stages_id. exact Tl.
Qed.

Lemma format_em_span_witness :
  formatMessage (u "a *b* c") = u "a <em>b</em> c".
Proof.
  exact (@format_em_span (u "a ") (u "b") (u " c") eq_refl eq_refl eq_refl).
Defined.

(** X5: one span between backticks that is not empty, with no asterisk,
    backtick or line terminator in or around it, becomes code markup around
    the same text, and the text around it is kept. *)
Theorem format_code_span pre body post :
  inline_plain pre = true -> inline_plain body = true ->
  inline_plain post = true -> body <> [] ->
  formatMessage (pre ++ u "`" ++ body ++ u "`" ++ post)
  = pre ++ u "<code>" ++ body ++ u "</code>" ++ post.
Proof.
  intros Hpre Hbody Hpost Hne.
  split_plain Hpre. split_plain Hbody. split_plain Hpost.
  unfold formatMessage.
  change (pre ++ u "`" ++ body ++ u "`" ++ post)
    with (pre ++ BACKTICK :: body ++ BACKTICK :: post).
  set (S0 := pre ++ BACKTICK :: body ++ BACKTICK :: post).
  assert (Sa : lacks ASTERISK S0 = true).
  { unfold S0. rewrite lacks_app, Ha. cbn [andb lacks forallb].
    change (forallb (fun c => negb (c =? ASTERISK)%N)
              (body ++ BACKTICK :: post))
      with (lacks ASTERISK (body ++ BACKTICK :: post)).
    rewrite lacks_app, Ha0. cbn [andb lacks forallb]. exact Ha1. }
  rewrite (@replace_lacks ASTERISK _ bold_tpl S0 Sa : replace bold_re _ _ = _).
  rewrite (@replace_lacks ASTERISK _ em_tpl S0 Sa : replace em_re _ _ = _).
  assert (E1 : replace code_re code_tpl S0
               = pre ++ u "<code>" ++ body ++ u "</code>" ++ post).
  { unfold S0. destruct body as [|d b]; [contradiction|].
    replace ((d :: b) ++ BACKTICK :: post)
      with ((d :: b ++ [BACKTICK]) ++ post)
      by (cbn [app]; rewrite <- app_assoc; reflexivity).
    replace (pre ++ u "<code>" ++ (d :: b) ++ u "</code>" ++ post)
      with (pre ++ expand code_tpl (d :: b) ++ post)
      by (unfold code_tpl; rewrite expand_wrap, <- !app_assoc; reflexivity).
    apply (@replace_one_span BACKTICK _ code_tpl pre BACKTICK
             (d :: b ++ [BACKTICK]) post (1, 2 + List.length b) (d :: b));
      try assumption.
    - cbn [app]. rewrite <- app_assoc. cbn [app].
      refine (eq_trans (@exec_code_span d b post _ _) _).
      + exact (@lacks_head _ _ _ Hb0).
      + exact (@lacks_tail _ _ _ Hb0).
      + do 2 f_equal. cbn [List.length]. rewrite length_app. cbn. lia.
    - cbn [app]. rewrite <- app_assoc. apply capture_code. }
  rewrite E1.
  apply later_stages_id.
  rewrite !lacks_app, Hl, Hl0, Hl1. reflexivity.
Qed.

Lemma format_code_span_witness :
  formatMessage (u "run `make` now") = u "run <code>make</code> now".
Proof.
  refine (@format_code_span (u "run ") (u "make") (u " now")
            eq_refl eq_refl eq_refl _).
  discriminate.
Defined.

(** ** Placeholders and exchanges *)

Lemma set_chatMessages_same w : set_chatMessages (chatMessages w) w = w.
Proof. destruct w; reflexivity. Qed.

Lemma transcript_holds_app parse id l r :
  transcript_holds parse id (l ++ r)
  = transcript_holds parse id l || transcript_holds parse id r.
Proof. apply existsb_app. Qed.

Lemma transcript_holds_cons parse id e l :
  transcript_holds parse id (e :: l)
  = entry_holds parse id e || transcript_holds parse id l.
Proof. reflexivity. Qed.

Lemma carries_of_holds parse id l :
  transcript_holds parse id l = false -> carries id l = false.
Proof.
  unfold transcript_holds, carries, entry_holds.
  induction l as [|e l IH]; cbn; [reflexivity|].
  intros H. apply orb_false_elim in H. destruct H as [He Hl].
  apply orb_false_elim in He. destruct He as [He _].
  rewrite He, (IH Hl). reflexivity.
Qed.

Lemma transcript_holds_split parse id : forall l,
  transcript_holds parse id l = true ->
  exists A p B, l = A ++ p :: B /\ transcript_holds parse id A = false
                /\ entry_holds parse id p = true.
Proof.
  unfold transcript_holds. induction l as [|e l IH]; cbn; [discriminate|].
  destruct (entry_holds parse id e) eqn:He; cbn.
  - intros _. exists [], e, l. auto.
  - intros H. destruct (IH H) as (A & p & B & -> & HA & Hp).
    exists (e :: A), p, B. cbn. rewrite He. auto.
Qed.

(** The search passes the entries that hold nothing with the id. *)
Lemma remove_first_app parse id l r :
  transcript_holds parse id l = false ->
  remove_first parse id (l ++ r) = l ++ remove_first parse id r.
Proof.
  unfold transcript_holds, entry_holds.
  induction l as [|e l IH]; cbn; [reflexivity|].
  intros H. apply orb_false_elim in H. destruct H as [He Hl].
  apply orb_false_elim in He. destruct He as [He1 He2].
  rewrite He1, He2, (IH Hl). reflexivity.
Qed.

Lemma remove_first_absent parse id l :
  transcript_holds parse id l = false -> remove_first parse id l = l.
Proof.
  intros H. rewrite <- (app_nil_r l) at 1.
  rewrite (@remove_first_app parse id l [] H). apply app_nil_r.
Qed.

Lemma remove_first_found parse id A p B :
  transcript_holds parse id A = false -> has_id id p = true ->
  remove_first parse id (A ++ p :: B) = A ++ B.
Proof.
  intros HA Hp. rewrite (@remove_first_app parse id A _ HA). cbn.
  rewrite Hp. reflexivity.
Qed.

Lemma search_node_unfold id t i below :
  search_node id t (El i below)
  = if same_id i id then Cut []
    else match search id t below with
         | Cut b => Cut [El i b]
         | h => h
         end.
Proof.
  cbn [search_node]. destruct (same_id i id); [reflexivity|].
  match goal with
  | |- match ?f below with _ => _ end = _ =>
      assert (E : forall l, f l = search id t l)
        by (induction l as [|c r IHl];
            [reflexivity|cbn [search]; rewrite <- IHl; reflexivity])
  end.
  rewrite E. reflexivity.
Qed.

Lemma element_forest_ind (P : element -> Prop) (Q : list element -> Prop) :
  P Slot -> (forall i below, Q below -> P (El i below)) ->
  Q [] -> (forall c rest, P c -> Q rest -> Q (c :: rest)) ->
  forall l, Q l.
Proof.
  intros HS HE HN HC.
  assert (HP : forall n, P n).
  { fix IH 1. intros [|i below].
    - exact HS.
    - apply HE. induction below as [|c rest IHrest].
      + exact HN.
      + apply HC; [apply IH|exact IHrest]. }
  induction l as [|c rest IHl]; [exact HN|]. apply HC; [apply HP|exact IHl].
Qed.

(** A page without the id: the lookup comes to the transcript, if the page
    holds it, and finds nothing in the page itself. *)
Lemma search_free id t : forall l,
  forallb (fun i => negb (same_id i id)) (flat_map page_ids l) = true ->
  search id t l = if t && existsb has_slot l then AtSlot else Miss.
Proof.
  apply (@element_forest_ind
           (fun n => forallb (fun i => negb (same_id i id)) (page_ids n) = true ->
                     search_node id t n
                     = if t && has_slot n then AtSlot else Miss)
           (fun l => forallb (fun i => negb (same_id i id))
                       (flat_map page_ids l) = true ->
                     search id t l
                     = if t && existsb has_slot l then AtSlot else Miss)).
  - intros _. cbn. destruct t; reflexivity.
  - intros i below IH H. rewrite search_node_unfold.
    cbn [page_ids forallb] in H. apply andb_prop in H. destruct H as [Hi H].
    apply negb_true_iff in Hi. rewrite Hi, (IH H). cbn [has_slot].
    destruct (t && existsb has_slot below); reflexivity.
  - intros _. cbn. rewrite andb_false_r. reflexivity.
  - intros c rest IHc IHr H. cbn [flat_map] in H. rewrite forallb_app in H.
    apply andb_prop in H. destruct H as [Hc Hr].
    cbn [search existsb]. rewrite (IHc Hc), (IHr Hr).
    destruct t; cbn [andb]; [|reflexivity].
    destruct (has_slot c); [reflexivity|]. cbn [orb].
    destruct (existsb has_slot rest); reflexivity.
Qed.

Lemma search_clear id p :
  page_clear id p = true ->
  search id true p = AtSlot /\ search id false p = Miss.
Proof.
  unfold page_clear. intros H. apply andb_prop in H. destruct H as [Hf Hs].
  rewrite !(@search_free id _ p Hf), Hs. split; reflexivity.
Qed.

(** A lookup that passes the host page and finds an entry with the id. *)
Lemma detach_found id w A p B :
  page_clear id (page w) = true ->
  chatMessages w = A ++ p :: B ->
  transcript_holds (markup_ids w) id A = false -> has_id id p = true ->
  detach id w = set_chatMessages (A ++ B) w.
Proof.
  intros Hc Hw HA Hp. destruct (search_clear _ _ Hc) as (Hs & _).
  unfold detach. cbv zeta.
  fold (transcript_holds (markup_ids w) id (chatMessages w)).
  rewrite Hw, transcript_holds_app, transcript_holds_cons.
  unfold entry_holds at 1. rewrite Hp, orb_true_l, orb_true_r, Hs.
  rewrite (@remove_first_found _ id A p B HA Hp). reflexivity.
Qed.

(** A lookup that finds nothing. *)
Lemma detach_absent id w :
  page_clear id (page w) = true ->
  transcript_holds (markup_ids w) id (chatMessages w) = false ->
  detach id w = w.
Proof.
  intros Hc H. destruct (search_clear _ _ Hc) as (_ & Hs).
  unfold detach. cbv zeta.
  fold (transcript_holds (markup_ids w) id (chatMessages w)).
  rewrite H, Hs. reflexivity.
Qed.

(** X6: when no element of the host page carries the id, [removeLoading]
    changes nothing if no entry carries the id or holds an element with it;
    otherwise it takes out the first such element of the transcript, that
    entry itself or the element inside its content, and nothing else. It
    never fails. *)
Theorem removeLoading_once id w :
  page_clear id (page w) = true ->
  let parse := markup_ids w in
  (transcript_holds parse id (chatMessages w) = false
   /\ removeLoading id w = (Ok tt, w))
  \/ (exists A p B,
        chatMessages w = A ++ p :: B
        /\ transcript_holds parse id A = false
        /\ entry_holds parse id p = true
        /\ removeLoading id w
           = (Ok tt,
              set_chatMessages
                (A ++ (if has_id id p then []
                       else [set_removed (removed p ++ [id]) p]) ++ B) w)).
Proof.
  intros Hc. cbv zeta. unfold removeLoading, modify.
  destruct (transcript_holds (markup_ids w) id (chatMessages w)) eqn:E.
  - right.
    destruct (@transcript_holds_split _ _ _ E) as (A & p & B & Hw & HA & Hp).
    exists A, p, B. repeat split; try assumption.
    unfold detach. cbv zeta.
    fold (transcript_holds (markup_ids w) id (chatMessages w)).
    rewrite E, (proj1 (search_clear _ _ Hc)), Hw,
      (@remove_first_app _ id A _ HA).
    cbn [remove_first]. unfold entry_holds in Hp.
    destruct (has_id id p); [reflexivity|].
    cbn in Hp. rewrite Hp. reflexivity.
  - left. split; [reflexivity|]. rewrite (@detach_absent id w Hc E).
    reflexivity.
Qed.

Lemma removeLoading_once_witness :
  let w := step (SendClick 5) (init sample_page) in
  let id := loading_id 5 in
  page_clear id (page w) = true
  /\ chatMessages w = [user_entry (u "hi"); placeholder 5]
  /\ ((transcript_holds (markup_ids w) id (chatMessages w) = false
       /\ removeLoading id w = (Ok tt, w))
      \/ (exists A p B,
            chatMessages w = A ++ p :: B
            /\ transcript_holds (markup_ids w) id A = false
            /\ entry_holds (markup_ids w) id p = true
            /\ removeLoading id w
               = (Ok tt,
                  set_chatMessages
                    (A ++ (if has_id id p then []
                           else [set_removed (removed p ++ [id]) p]) ++ B)
                    w))).
Proof.
  cbv zeta.
  assert (Hc : page_clear (loading_id 5)
                 (page (step (SendClick 5) (init sample_page))) = true)
    by reflexivity.
  split; [exact Hc|]. split; [reflexivity|].
  exact (@removeLoading_once (loading_id 5)
           (step (SendClick 5) (init sample_page)) Hc).
Defined.

(** A loading id is not the empty string. *)
Lemma same_id_loading i now :
  same_id i (loading_id now) = jsstring_eqb i (loading_id now).
Proof.
  unfold same_id. destruct (loading_id now) eqn:E; [|reflexivity].
  unfold loading_id in E. apply app_eq_nil in E. destruct E as [E _].
  vm_compute in E. discriminate E.
Qed.

Lemma placeholder_found now : has_id (loading_id now) (placeholder now) = true.
Proof.
  unfold has_id. cbn [elem_id placeholder]. rewrite same_id_loading.
  unfold jsstring_eqb.
  destruct (list_eq_dec N.eq_dec (loading_id now) (loading_id now));
    congruence.
Qed.

Lemma addLoading_state now w :
  addLoading now w
  = (Ok (loading_id now),
     set_scrollTop (List.length (chatMessages w ++ [placeholder now]))
       (set_chatMessages (chatMessages w ++ [placeholder now]) w)).
Proof. reflexivity. Qed.

(** X7: when nothing in the document carries the id of the time stamp,
    adding the placeholder and removing it by the id returned gives back
    the state, the transcript included; only the scroll position may
    differ. *)
Theorem addLoading_removeLoading now w :
  page_clear (loading_id now) (page w) = true ->
  transcript_holds (markup_ids w) (loading_id now) (chatMessages w) = false ->
  exists n,
    (id <- addLoading now ;; removeLoading id)%widget w
    = (Ok tt, set_scrollTop n w).
Proof.
  intros Hc H. exists (S (List.length (chatMessages w))).
  unfold bind. rewrite addLoading_state. unfold removeLoading, modify.
  rewrite (@detach_found (loading_id now)
             (set_scrollTop (List.length (chatMessages w ++ [placeholder now]))
                (set_chatMessages (chatMessages w ++ [placeholder now]) w))
             (chatMessages w) (placeholder now) [] Hc eq_refl H
             (placeholder_found now)).
  rewrite length_app, Nat.add_comm, app_nil_r. destruct w; reflexivity.
Qed.

Lemma addLoading_removeLoading_witness :
  let w := step (SendClick 5) (init sample_page) in
  chatMessages w = [user_entry (u "hi"); placeholder 5]
  /\ exists n,
       (id <- addLoading 6 ;; removeLoading id)%widget w
       = (Ok tt, set_scrollTop n w).
Proof.
  cbv zeta. split; [reflexivity|].
  refine (@addLoading_removeLoading 6 (step (SendClick 5) (init sample_page))
            _ eq_refl).
  reflexivity.
Defined.

Lemma u_inj a b : u a = u b -> a = b.
Proof.
  unfold u. intros H.
  assert (E : list_ascii_of_string a = list_ascii_of_string b).
  { revert H. generalize (list_ascii_of_string a) (list_ascii_of_string b).
    induction l as [|x l IH]; intros [|y l'] H; try discriminate; [reflexivity|].
    cbn in H. inversion H as [[Hx Hl]]. f_equal; [|apply IH; exact Hl].
    rewrite <- (ascii_N_embedding x), <- (ascii_N_embedding y), Hx.
    reflexivity. }
  rewrite <- (string_of_list_ascii_of_string a),
          <- (string_of_list_ascii_of_string b), E. reflexivity.
Qed.

Lemma Number_toString_inj a b : Number_toString a = Number_toString b -> a = b.
Proof.
  unfold Number_toString. intros H. apply u_inj in H.
  assert (E : N.to_uint a = N.to_uint b).
  { apply (f_equal NilEmpty.uint_of_string) in H.
    rewrite !NilEmpty.usu in H. congruence. }
  rewrite <- (Unsigned.of_to a), <- (Unsigned.of_to b), E. reflexivity.
Qed.

(** The id made from a time stamp finds a placeholder exactly when the
    placeholder was made at the same time stamp. *)
Lemma placeholder_has_id a b :
  has_id (loading_id a) (placeholder b) = (a =? b)%N.
Proof.
  unfold has_id. cbn [elem_id placeholder]. rewrite same_id_loading.
  unfold jsstring_eqb.
  destruct (list_eq_dec N.eq_dec (loading_id b) (loading_id a)) as [E|E];
    destruct (N.eqb_spec a b) as [Hab|Hab]; try reflexivity.
  - unfold loading_id in E. apply app_inv_head in E.
    apply Number_toString_inj in E. congruence.
  - subst. contradiction.
Qed.

(** The markup of the typing indicator brings no element with an id. *)
Lemma placeholder_holds parse a b :
  entry_holds parse (loading_id a) (placeholder b) = (a =? b)%N.
Proof.
  unfold entry_holds. rewrite placeholder_has_id.
  unfold dom, element_ids. cbn [inner removed placeholder fold_left].
  rewrite jsstring_eqb_refl. cbn. apply orb_false_r.
Qed.

Lemma user_entry_holds parse id m : entry_holds parse id (user_entry m) = false.
Proof. reflexivity. Qed.

(** X8: loading ids made from two time stamps are equal exactly when the
    time stamps are. *)
Theorem loading_ids_distinct a b : loading_id a = loading_id b <-> a = b.
Proof.
  split; [|congruence]. unfold loading_id. intros E.
  apply app_inv_head in E. apply Number_toString_inj in E. exact E.
Qed.

(** What a send leaves behind, field by field. *)
Lemma send_fields now w :
  trim (chatInput w) <> [] ->
  let m := trim (chatInput w) in
  let w1 := step (SendClick now) w in
  chatMessages w1 = chatMessages w ++ [user_entry m; placeholder now]
  /\ pending w1 = pending w ++ [loading_id now]
  /\ chatHistory w1 = chatHistory w ++ [user_turn m]
  /\ chatInput w1 = []
  /\ List.length (requests w1) = S (List.length (requests w))
  /\ console w1 = console w
  /\ chatWindow w1 = chatWindow w /\ icon w1 = icon w
  /\ inputFocused w1 = inputFocused w
  /\ page w1 = page w /\ markup_ids w1 = markup_ids w.
Proof.
  intros H. cbn [step]. unfold exec_handler, sendMessage, bind, get.
  destruct (trim (chatInput w)) as [|c m] eqn:E; [contradiction|].
  cbn [is_empty].
  unfold addMessage, appendChild, scrollToBottom, modify, push_history,
    addLoading, fetch, bind, ret, get. cbn.
  rewrite <- !app_assoc, !length_app. cbn [app List.length].
  repeat split. lia.
Qed.

(** What the end of a call does to the transcript, whatever the outcome:
    the lookups of the callbacks, then the reply. *)
Lemma settle_transcript id o w :
  let w' := exec_handler (settle id o) w in
  chatMessages w' = chatMessages (lookups id o w) ++ [reply_entry o]
  /\ page w' = page (lookups id o w)
  /\ scrollTop w' = List.length (chatMessages w').
Proof.
  destruct o as [| |data]; [cbn; repeat split; reflexivity..|].
  unfold exec_handler, settle, catch, on_data, bind, removeLoading, modify,
    lift, lookups, removes_twice, reply_entry.
  destruct (get_response data) as [v|e]; [destruct v|]; cbn;
    rewrite ?detach_set_chatHistory; repeat split; reflexivity.
Qed.

Lemma nth_error_past (A : Type) (l r : list A) k :
  nth_error (l ++ r) (List.length l + k) = nth_error r k.
Proof.
  rewrite nth_error_app2 by lia. f_equal. lia.
Qed.

Lemma remove_nth_past (A : Type) (r : list A) k : forall l,
  remove_nth (List.length l + k) (l ++ r) = l ++ remove_nth k r.
Proof.
  induction l as [|x l IH]; [reflexivity|].
  cbn [List.length Nat.add app remove_nth]. rewrite IH. reflexivity.
Qed.

Lemma step_settled n o w id :
  nth_error (pending w) n = Some id ->
  step (Settled n o) w
  = exec_handler (settle id o) (set_pending (remove_nth n (pending w)) w).
Proof. intros H. cbn [step]. rewrite H. reflexivity. Qed.

Lemma has_id_none id e : elem_id e = None -> has_id id e = false.
Proof. unfold has_id. intros ->. reflexivity. Qed.

Lemma reply_entry_no_id id o : has_id id (reply_entry o) = false.
Proof.
  apply has_id_none. destruct o as [| |data]; try reflexivity.
  cbn. destruct (get_response data) as [[]|]; reflexivity.
Qed.

(** Looking the id up once or twice is the same when one entry carries it
    and nothing else in the document does. *)
Lemma lookups_done id o w l p r :
  page_clear id (page w) = true ->
  chatMessages w = l ++ p :: r ->
  transcript_holds (markup_ids w) id l = false -> has_id id p = true ->
  transcript_holds (markup_ids w) id r = false ->
  lookups id o w = set_chatMessages (l ++ r) w.
Proof.
  intros Hc Hw Hl Hp Hr. unfold lookups.
  rewrite (@detach_found id w l p r Hc Hw Hl Hp).
  destruct (removes_twice o); [|reflexivity].
  apply detach_absent; [exact Hc|]. cbn [chatMessages set_chatMessages markup_ids].
  rewrite transcript_holds_app, Hl, Hr. reflexivity.
Qed.

(** The end of the call of pending chain [n], when its lookups find the
    placeholder [p] of the call and nothing else. *)
Lemma settled_done n o w id l p r :
  nth_error (pending w) n = Some id ->
  page_clear id (page w) = true ->
  chatMessages w = l ++ p :: r ->
  transcript_holds (markup_ids w) id l = false -> has_id id p = true ->
  transcript_holds (markup_ids w) id r = false ->
  let w' := step (Settled n o) w in
  chatMessages w' = (l ++ r) ++ [reply_entry o]
  /\ page w' = page w /\ markup_ids w' = markup_ids w
  /\ pending w' = remove_nth n (pending w)
  /\ chatInput w' = chatInput w
  /\ scrollTop w' = List.length (chatMessages w').
Proof.
  intros Hn Hc Hw Hl Hp Hr. cbv zeta. rewrite (@step_settled n o w id Hn).
  set (w0 := set_pending (remove_nth n (pending w)) w).
  destruct (settle_transcript id o w0) as (Ht & Hg & Hs).
  destruct (settle_frame id o w0) as (_ & _ & Hi & _ & _ & Hq & Hm).
  rewrite (@lookups_done id o w0 l p r Hc Hw Hl Hp Hr) in Ht, Hg.
  repeat split; assumption.
Qed.

(** X9: a send with a message that is not blank, followed by the end of its
    call, whatever the outcome, adds to the transcript the user entry and
    one reply entry (the formatted reply for a string response, the apology
    otherwise), leaves no placeholder of the call, gives back the pending
    chains, leaves the input empty and the view at the bottom, provided no
    element of the document carried the id of the call before: none of the
    host page, no entry and no element inside an entry. *)
Theorem exchange_transcript now o w :
  trim (chatInput w) <> [] ->
  page_clear (loading_id now) (page w) = true ->
  transcript_holds (markup_ids w) (loading_id now) (chatMessages w) = false ->
  let w2 := step (Settled (List.length (pending w)) o)
                 (step (SendClick now) w) in
  chatMessages w2
  = chatMessages w ++ [user_entry (trim (chatInput w)); reply_entry o]
  /\ carries (loading_id now) (chatMessages w2) = false
  /\ pending w2 = pending w
  /\ chatInput w2 = []
  /\ scrollTop w2 = List.length (chatMessages w2).
Proof.
  intros Hm Hc Hh. cbv zeta.
  destruct (@send_fields now w Hm)
    as (Hmsg & Hpen & _ & Hin & _ & _ & _ & _ & _ & Hpg & Hmk).
  set (w1 := step (SendClick now) w) in *.
  assert (Hn : nth_error (pending w1) (List.length (pending w))
               = Some (loading_id now)).
  { rewrite Hpen. rewrite <- (Nat.add_0_r (List.length (pending w))).
    rewrite nth_error_past. reflexivity. }
  assert (Hw1 : chatMessages w1
                = (chatMessages w ++ [user_entry (trim (chatInput w))])
                    ++ placeholder now :: []).
  { rewrite Hmsg, <- app_assoc. reflexivity. }
  destruct (@settled_done _ o w1 _
              (chatMessages w ++ [user_entry (trim (chatInput w))])
              (placeholder now) [] Hn)
    as (Ht & _ & _ & Hp & Hi & Hs).
  - rewrite Hpg. exact Hc.
  - exact Hw1.
  - rewrite Hmk, transcript_holds_app, Hh. reflexivity.
  - apply placeholder_found.
  - reflexivity.
  - rewrite app_nil_r, <- app_assoc in Ht. cbn [app] in Ht.
    split; [exact Ht|]. split.
    + rewrite Ht. unfold carries. rewrite existsb_app.
      fold (carries (loading_id now) (chatMessages w)).
      rewrite (@carries_of_holds _ _ _ Hh).
      cbn [existsb orb]. rewrite reply_entry_no_id. reflexivity.
    + split; [|split; [rewrite Hi; exact Hin|exact Hs]].
      rewrite Hp, Hpen. rewrite <- (Nat.add_0_r (List.length (pending w))).
      rewrite remove_nth_past. cbn. apply app_nil_r.
Qed.

Lemma exchange_transcript_witness :
  let w2 := step (Settled 0 FetchRejects)
                 (step (SendClick 5) (init sample_page)) in
  chatMessages w2 = [user_entry (u "hi"); apology_entry]
  /\ pending w2 = [].
Proof.
  cbv zeta.
  assert (H : trim (chatInput (init sample_page)) <> []) by discriminate.
  assert (Hc : page_clear (loading_id 5) (page (init sample_page)) = true)
    by reflexivity.
  destruct (@exchange_transcript 5 FetchRejects (init sample_page) H Hc
              eq_refl)
    as (Ht & _ & Hp & _).
  split; [exact Ht|exact Hp].
Defined.

Lemma carries_app id l r : carries id (l ++ r) = carries id l || carries id r.
Proof. apply existsb_app. Qed.

Lemma carries_cons id e l : carries id (e :: l) = has_id id e || carries id l.
Proof. reflexivity. Qed.

Lemma user_entry_no_id id m : has_id id (user_entry m) = false.
Proof. reflexivity. Qed.

Ltac no_carrier :=
  rewrite ?transcript_holds_app, ?transcript_holds_cons, ?user_entry_holds,
    ?placeholder_holds;
  repeat match goal with
    | H : transcript_holds _ _ _ = false |- _ => rewrite H
    | H : entry_holds _ _ _ = false |- _ => rewrite H
    | H : (_ =? _)%N = false |- _ => rewrite H
    end;
  reflexivity.

(** X10: two exchanges started at different time stamps and ended in the
    opposite order each take their own placeholder away: the replies stand
    in the order in which the calls ended, after both user entries. Nothing
    in the document carried the two ids before, and the reply that comes
    first brings no element with the id of the call still under way. *)
Theorem overlapping_exchanges a b v oa ob w :
  a <> b ->
  trim (chatInput w) <> [] -> trim v <> [] ->
  page_clear (loading_id a) (page w) = true ->
  page_clear (loading_id b) (page w) = true ->
  transcript_holds (markup_ids w) (loading_id a) (chatMessages w) = false ->
  transcript_holds (markup_ids w) (loading_id b) (chatMessages w) = false ->
  entry_holds (markup_ids w) (loading_id a) (reply_entry ob) = false ->
  let n := List.length (pending w) in
  let w3 := run_events [SendClick a; Edit v; SendClick b] w in
  let w4 := step (Settled (S n) ob) w3 in
  let w5 := step (Settled n oa) w4 in
  chatMessages w3
  = chatMessages w ++ [user_entry (trim (chatInput w)); placeholder a;
                       user_entry (trim v); placeholder b]
  /\ chatMessages w4
     = chatMessages w ++ [user_entry (trim (chatInput w)); placeholder a;
                          user_entry (trim v); reply_entry ob]
  /\ chatMessages w5
     = chatMessages w ++ [user_entry (trim (chatInput w));
                          user_entry (trim v); reply_entry ob; reply_entry oa]
  /\ pending w5 = pending w.
Proof.
  intros Hab Hm Hv Hca Hcb Ha Hb Hob. cbv zeta. cbn [run_events fold_left].
  assert (Eab : (a =? b)%N = false) by (apply N.eqb_neq; exact Hab).
  assert (Eba : (b =? a)%N = false) by (apply N.eqb_neq; congruence).
  destruct (@send_fields a w Hm)
    as (Hmsg1 & Hpen1 & _ & _ & _ & _ & _ & _ & _ & Hpg1 & Hmk1).
  set (w1 := step (SendClick a) w) in *.
  set (w2 := step (Edit v) w1).
  assert (Hm2 : trim (chatInput w2) <> []) by exact Hv.
  destruct (@send_fields b w2 Hm2)
    as (Hmsg3 & Hpen3 & _ & _ & _ & _ & _ & _ & _ & Hpg3 & Hmk3).
  change (chatInput w2) with v in Hmsg3.
  change (chatMessages w2) with (chatMessages w1) in Hmsg3.
  change (pending w2) with (pending w1) in Hpen3.
  change (page w2) with (page w1) in Hpg3.
  change (markup_ids w2) with (markup_ids w1) in Hmk3.
  set (w3 := step (SendClick b) w2) in *.
  rewrite Hmsg1 in Hmsg3. rewrite Hpen1 in Hpen3.
  rewrite Hpg1 in Hpg3. rewrite Hmk1 in Hmk3.
  rewrite <- app_assoc in Hmsg3, Hpen3. cbn [app] in Hmsg3, Hpen3.
  (* the second call ends first *)
  assert (Hn4 : nth_error (pending w3) (S (List.length (pending w)))
                = Some (loading_id b)).
  { rewrite Hpen3, <- Nat.add_1_r, nth_error_past. reflexivity. }
  assert (Hw3 : chatMessages w3
                = (chatMessages w ++ [user_entry (trim (chatInput w));
                                      placeholder a; user_entry (trim v)])
                    ++ placeholder b :: []).
  { rewrite Hmsg3, <- app_assoc. reflexivity. }
  destruct (@settled_done _ ob w3 _
              (chatMessages w ++ [user_entry (trim (chatInput w));
                                  placeholder a; user_entry (trim v)])
              (placeholder b) [] Hn4)
    as (Ht4 & Hpg4 & Hmk4 & Hp4 & _).
  { rewrite Hpg3. exact Hcb. }
  { exact Hw3. }
  { rewrite Hmk3. no_carrier. }
  { rewrite placeholder_has_id. apply N.eqb_refl. }
  { reflexivity. }
  set (w4 := step (Settled (S (List.length (pending w))) ob) w3) in *.
  rewrite app_nil_r, <- app_assoc in Ht4. cbn [app] in Ht4.
  rewrite Hpen3, <- Nat.add_1_r, remove_nth_past in Hp4.
  cbn [remove_nth] in Hp4.
  rewrite Hpg3 in Hpg4. rewrite Hmk3 in Hmk4.
  (* then the first *)
  assert (Hn5 : nth_error (pending w4) (List.length (pending w))
                = Some (loading_id a)).
  { rewrite Hp4, <- (Nat.add_0_r (List.length (pending w))), nth_error_past.
    reflexivity. }
  assert (Hw4 : chatMessages w4
                = (chatMessages w ++ [user_entry (trim (chatInput w))])
                    ++ placeholder a :: [user_entry (trim v); reply_entry ob]).
  { rewrite Ht4, <- app_assoc. reflexivity. }
  destruct (@settled_done _ oa w4 _
              (chatMessages w ++ [user_entry (trim (chatInput w))])
              (placeholder a)
              [user_entry (trim v); reply_entry ob] Hn5)
    as (Ht5 & _ & _ & Hp5 & _).
  { rewrite Hpg4. exact Hca. }
  { exact Hw4. }
  { rewrite Hmk4. no_carrier. }
  { rewrite placeholder_has_id. apply N.eqb_refl. }
  { rewrite Hmk4. no_carrier. }
  set (w5 := step (Settled (List.length (pending w)) oa) w4) in *.
  rewrite <- !app_assoc in Ht5. cbn [app] in Ht5.
  rewrite Hp4, <- (Nat.add_0_r (List.length (pending w))), remove_nth_past
    in Hp5. cbn [remove_nth] in Hp5. rewrite app_nil_r in Hp5.
  repeat split; assumption.
Qed.

Lemma overlapping_exchanges_witness :
  let w3 := run_events [SendClick 5; Edit (u "x"); SendClick 6]
                       (init sample_page) in
  let w5 := step (Settled 0 JsonRejects) (step (Settled 1 FetchRejects) w3) in
  chatMessages w5
  = [user_entry (u "hi"); user_entry (u "x"); apology_entry; apology_entry]
  /\ pending w5 = [].
Proof.
  cbv zeta.
  assert (Hab : 5%N <> 6%N) by discriminate.
  assert (H : trim (chatInput (init sample_page)) <> []) by discriminate.
  assert (Hv : trim (u "x") <> []) by discriminate.
  assert (Hca : page_clear (loading_id 5) (page (init sample_page)) = true)
    by reflexivity.
  assert (Hcb : page_clear (loading_id 6) (page (init sample_page)) = true)
    by reflexivity.
  destruct (@overlapping_exchanges 5 6 (u "x") JsonRejects FetchRejects
              (init sample_page) Hab H Hv Hca Hcb eq_refl eq_refl eq_refl)
    as (_ & _ & Ht & Hp).
  split; [exact Ht|exact Hp].
Defined.

(** A reply whose markup holds an element with the id of a later call: the
    lookup of that call finds the element inside the reply, which comes
    first in the document, and the placeholder of the call stays. *)
Example reply_markup_shadows_placeholder :
  let reply text := JsonParsed (VObj [(u "response", VStr text)]) in
  let w := run_events [SendClick 5; Settled 0 (reply sample_markup);
                       Edit (u "x"); SendClick 6; Settled 0 (reply (u "ok"))]
                      (init sample_page) in
  chatMessages w
  = [user_entry (u "hi");
     set_removed [loading_id 6] (bot_entry sample_markup);
     user_entry (u "x"); placeholder 6; bot_entry (u "ok")].
Proof. vm_compute. reflexivity. Qed.

(** ** The layout handlers *)

Lemma close_click_state w :
  step CloseClick w = set_chatWindow (add (u "d-none") (chatWindow w)) w.
Proof. reflexivity. Qed.

(** X11: the three layout handlers (bubble, close, maximize) change neither
    the input text, the transcript, the history, the requests issued, the
    pending chains nor the console. *)
Theorem layout_keeps_session w :
  session_kept w (step BubbleClick w)
  /\ session_kept w (step CloseClick w)
  /\ session_kept w (step MaxClick w).
Proof.
  rewrite bubble_click_state, close_click_state, max_click_state. cbv zeta.
  destruct (contains (u "d-none") (chatWindow w)),
           (contains (u "maximized") (chatWindow w));
    repeat split.
Qed.

Lemma bubble_flips w : isOpen (step BubbleClick w) = negb (isOpen w).
Proof.
  rewrite bubble_click_state. cbv zeta. unfold isOpen.
  destruct (contains (u "d-none") (chatWindow w)) eqn:E;
    cbn -[toggle contains u];
    rewrite contains_toggle, jsstring_eqb_refl, E; reflexivity.
Qed.

Lemma layout_transcript w :
  chatMessages (step BubbleClick w) = chatMessages w
  /\ chatMessages (step MaxClick w) = chatMessages w.
Proof.
  rewrite bubble_click_state, max_click_state. cbv zeta.
  destruct (contains (u "d-none") (chatWindow w)),
           (contains (u "maximized") (chatWindow w)); split; reflexivity.
Qed.

(** X12: a click on the bubble flips the visibility of the panel; when it
    opens the panel it focuses the input and scrolls to the bottom, when it
    closes the panel focus and scroll position stay; every class other than
    [d-none] and the icon are kept. *)
Theorem bubble_click_effect w :
  let w' := step BubbleClick w in
  isOpen w' = negb (isOpen w)
  /\ (if isOpen w
      then inputFocused w' = inputFocused w /\ scrollTop w' = scrollTop w
      else inputFocused w' = true
           /\ scrollTop w' = List.length (chatMessages w'))
  /\ (forall t, t <> u "d-none" ->
                contains t (chatWindow w') = contains t (chatWindow w))
  /\ icon w' = icon w.
Proof.
  cbv zeta. rewrite bubble_click_state. cbv zeta. unfold isOpen.
  destruct (contains (u "d-none") (chatWindow w)) eqn:E;
    cbn -[toggle contains u];
    rewrite contains_toggle, jsstring_eqb_refl, E;
    (repeat split; try reflexivity);
    intros t Ht; rewrite contains_toggle;
    destruct (jsstring_eqb_spec t (u "d-none")); [contradiction|reflexivity
                                                 |contradiction|reflexivity].
Qed.

Lemma set_chatWindow_same w : set_chatWindow (chatWindow w) w = w.
Proof. destruct w; reflexivity. Qed.

(** X13: after a click on the close button the panel is closed; an open
    panel gets [d-none] at the end of its class list, a closed one is left
    exactly as it was; icon, focus and scroll position stay, and the next
    click on the bubble opens the panel. *)
Theorem close_click_effect w :
  let w' := step CloseClick w in
  isOpen w' = false
  /\ (if isOpen w
      then chatWindow w' = chatWindow w ++ [u "d-none"]
      else w' = w)
  /\ icon w' = icon w /\ inputFocused w' = inputFocused w
  /\ scrollTop w' = scrollTop w
  /\ isOpen (step BubbleClick w') = true.
Proof.
  cbv zeta. rewrite close_click_state.
  assert (Hc : isOpen (set_chatWindow (add (u "d-none") (chatWindow w)) w)
               = false).
  { unfold isOpen. cbn -[add contains u].
    rewrite contains_add, jsstring_eqb_refl. reflexivity. }
  split; [exact Hc|]. split.
  - unfold isOpen, add.
    destruct (contains (u "d-none") (chatWindow w)); cbn [negb].
    + apply set_chatWindow_same.
    + reflexivity.
  - repeat split.
    rewrite bubble_flips, Hc. reflexivity.
Qed.

(** X14: a click on the maximize button flips the layout flag and always
    leaves the icon with the glyph of the new layout and without the other
    one, whatever the icon showed before; visibility, focus and scroll
    position stay. *)
Theorem max_click_effect w :
  let w' := step MaxClick w in
  isMaximized w' = negb (isMaximized w)
  /\ glyph_matches w' = true
  /\ isOpen w' = isOpen w
  /\ inputFocused w' = inputFocused w /\ scrollTop w' = scrollTop w.
Proof.
  cbv zeta. rewrite max_click_state. cbv zeta.
  unfold glyph_matches, isMaximized, isOpen.
  destruct (contains (u "maximized") (chatWindow w)) eqn:E;
    cbn -[toggle contains add remove u];
    rewrite !contains_toggle, jsstring_eqb_refl, E;
    cbn -[toggle contains add remove u];
    repeat (rewrite contains_add || rewrite contains_remove);
    rewrite ?jsstring_eqb_refl; eval_tokens; repeat split.
Qed.

(** X15: on a page whose panel is not maximized when the script starts, the
    icon shows the glyph of the current layout after every sequence of
    events. *)
Theorem icon_follows_layout es h :
  contains (u "maximized") (host_window h) = false ->
  glyph_matches (run_events es (init h)) = true.
Proof.
  intros Hh.
  assert (H0 : glyph_matches (init h) = true).
  { unfold glyph_matches, isMaximized. cbn -[contains u]. rewrite Hh.
    reflexivity. }
  revert H0. generalize (init h). induction es as [|e es IH]; intros w Hw.
  - exact Hw.
  - cbn [run_events fold_left]. apply IH. apply glyph_step. exact Hw.
Qed.

Lemma icon_follows_layout_witness :
  glyph_matches (run_events [MaxClick; BubbleClick; MaxClick; MaxClick]
                            (init sample_page)) = true.
Proof.
  exact (@icon_follows_layout [MaxClick; BubbleClick; MaxClick; MaxClick]
           sample_page eq_refl).
Defined.

(** ** The record of calls *)

(** ** Trimming *)

Lemma drop_space_split s :
  exists a, s = a ++ drop_space s /\ forallb is_space a = true.
Proof.
  induction s as [|c s (a & E & Ha)].
  - exists []. auto.
  - cbn [drop_space]. destruct (is_space c) eqn:Hc.
    + exists (c :: a). cbn. rewrite Hc, Ha. split; [congruence|reflexivity].
    + exists []. auto.
Qed.

Lemma drop_space_head s c t : drop_space s = c :: t -> is_space c = false.
Proof.
  induction s as [|x s IH]; [discriminate|]. cbn [drop_space].
  destruct (is_space x) eqn:Hx; [exact IH|]. intros E.
  injection E as -> _. exact Hx.
Qed.

Lemma drop_space_all s : forallb is_space s = true -> drop_space s = [].
Proof.
  induction s as [|c s IH]; [reflexivity|]. cbn. 
  destruct (is_space c); [exact IH|discriminate].
Qed.

Lemma forallb_rev (A : Type) (f : A -> bool) l :
  forallb f l = true -> forallb f (rev l) = true.
Proof.
  rewrite !forallb_forall. intros H x Hx. apply H, in_rev, Hx.
Qed.

Lemma trim_split s :
  exists a b, s = a ++ trim s ++ b
              /\ forallb is_space a = true /\ forallb is_space b = true.
Proof.
  unfold trim. destruct (drop_space_split s) as (a & Ea & Ha).
  destruct (drop_space_split (rev (drop_space s))) as (b & Eb & Hb).
  exists a, (rev b). split; [|split; [exact Ha|apply forallb_rev, Hb]].
  rewrite <- rev_app_distr, <- Eb, rev_involutive. exact Ea.
Qed.

Lemma trim_trimmed s : trim s <> [] -> trimmed (trim s) = true.
Proof.
  unfold trim. intros H.
  destruct (drop_space_split (rev (drop_space s))) as (b & Eb & Hb).
  destruct (drop_space (rev (drop_space s))) as [|d r] eqn:Er;
    [contradiction H; reflexivity|].
  pose proof (drop_space_head _ Er) as Hd.
  unfold trimmed.
  destruct (rev (d :: r)) as [|c t] eqn:Ec; [contradiction H; reflexivity|].
  rewrite <- Ec, rev_involutive.
  apply (f_equal (@rev N)) in Eb. rewrite rev_involutive, rev_app_distr, Ec in Eb.
  cbn [app] in Eb. apply drop_space_head in Eb. rewrite Eb, Hd. reflexivity.
Qed.

Lemma trim_blank s : trim s = [] <-> forallb is_space s = true.
Proof.
  split; intros H.
  - destruct (trim_split s) as (a & b & E & Ha & Hb). rewrite H in E.
    rewrite E. cbn [app]. rewrite forallb_app, Ha, Hb. reflexivity.
  - unfold trim. rewrite (drop_space_all _ H). reflexivity.
Qed.

(** ** One event *)

Lemma send_request now w :
  trim (chatInput w) <> [] ->
  let m := trim (chatInput w) in
  let w1 := step (SendClick now) w in
  requests w1 = requests w ++ [chat_request m (chatHistory w ++ [user_turn m])]
  /\ scrollTop w1 = List.length (chatMessages w1).
Proof.
  intros H. cbn [step]. unfold exec_handler, sendMessage, bind, get.
  destruct (trim (chatInput w)) as [|c m] eqn:E; [contradiction|].
  cbn [is_empty].
  unfold addMessage, appendChild, scrollToBottom, modify, push_history,
    addLoading, fetch, bind, ret, get. cbn.
  rewrite map_map. split; reflexivity.
Qed.

Lemma send_blank now w : trim (chatInput w) = [] -> step (SendClick now) w = w.
Proof.
  intros H. cbn [step]. unfold exec_handler, sendMessage, bind, get.
  rewrite H. reflexivity.
Qed.

Lemma keypress_step key now w :
  step (Keypress key now) w
  = if jsstring_eqb key (u "Enter") then step (SendClick now) w else w.
Proof.
  cbn [step]. unfold input_keypress.
  destruct (jsstring_eqb key (u "Enter")); reflexivity.
Qed.

Lemma settle_ledger id o w :
  let w' := exec_handler (settle id o) w in
  exists hs cs,
    chatHistory w' = chatHistory w ++ hs /\ console w' = console w ++ cs
    /\ Forall (fun t => role t = u "model") hs
    /\ List.length hs <= 1 /\ List.length cs <= 1
    /\ 1 <= List.length hs + List.length cs.
Proof.
  destruct o as [| |data].
  - exists [], [(u "Error:", NetworkFailure)]. frame.
    rewrite app_nil_r. repeat split; auto.
  - exists [], [(u "Error:", BodySyntaxError)]. frame.
    rewrite app_nil_r. repeat split; auto.
  - unfold exec_handler, settle, catch, on_data, bind, removeLoading, modify,
      lift.
    destruct (get_response data) as [v|e].
    + destruct v;
        try (exists [model_turn (VStr s)], []; frame; rewrite app_nil_r;
             repeat split; auto);
        match goal with
        | |- context [push_history {| role := _; parts := [?v] |}] =>
            exists [model_turn v], [(u "Error:", TypeError)]; frame;
            repeat split; auto
        end.
    + exists [], [(u "Error:", e)]. frame. rewrite app_nil_r.
      repeat split; auto.
Qed.

Lemma remove_nth_length (A : Type) (l : list A) : forall n x,
  nth_error l n = Some x -> List.length l = S (List.length (remove_nth n l)).
Proof.
  induction l as [|y l IH]; intros [|n] x H; try discriminate.
  - reflexivity.
  - cbn. f_equal. eapply IH. exact H.
Qed.

Lemma bubble_quiet w : quiet w (step BubbleClick w).
Proof.
  rewrite bubble_click_state. cbv zeta.
  destruct (contains (u "d-none") (chatWindow w)); repeat split.
Qed.

Lemma max_quiet w : quiet w (step MaxClick w).
Proof.
  rewrite max_click_state. cbv zeta.
  destruct (contains (u "maximized") (chatWindow w)); repeat split.
Qed.

Lemma send_kind now w :
  quiet w (step (SendClick now) w) \/ sends w (step (SendClick now) w).
Proof.
  destruct (trim (chatInput w)) as [|c t] eqn:E.
  - left. rewrite (send_blank now w E). repeat split.
  - right. assert (H : trim (chatInput w) <> []) by (rewrite E; discriminate).
    destruct (@send_fields now w H) as (_ & Hp & Hh & _ & _ & Hc & _).
    destruct (@send_request now w H) as (Hr & _).
    exists (trim (chatInput w)), now.
    split; [apply trim_trimmed, H|]. repeat split; assumption.
Qed.

Lemma step_kind e w :
  quiet w (step e w) \/ sends w (step e w) \/ settles w (step e w).
Proof.
  destruct e as [| | |now|key now|v| |n o].
  - left. apply bubble_quiet.
  - left. repeat split.
  - left. apply max_quiet.
  - destruct (send_kind now w); auto.
  - rewrite keypress_step. destruct (jsstring_eqb key (u "Enter")).
    + destruct (send_kind now w); auto.
    + left. repeat split.
  - left. repeat split.
  - left. repeat split.
  - cbn [step]. destruct (nth_error (pending w) n) as [id|] eqn:En.
    + right. right.
      set (w0 := set_pending (remove_nth n (pending w)) w).
      destruct (settle_ledger id o w0) as (hs & cs & Hh & Hc & Hm & H1 & H2 & H3).
      destruct (settle_frame id o w0) as (_ & _ & _ & _ & Hr & Hp & _).
      exists hs, cs. repeat split; try assumption.
      rewrite Hp. apply (remove_nth_length _ _ En).
    + left. repeat split.
Qed.

Lemma run_invariant (P : widget -> Prop) :
  (forall e w, P w -> P (step e w)) ->
  forall es w, P w -> P (run_events es w).
Proof.
  intros HP es. induction es as [|e es IH]; intros w Hw; [exact Hw|].
  cbn [run_events fold_left]. apply IH, HP, Hw.
Qed.

Lemma count_role_app r h h' :
  count_role r (h ++ h') = count_role r h + count_role r h'.
Proof. unfold count_role. rewrite filter_app, length_app. reflexivity. Qed.

Lemma count_model_turns hs :
  Forall (fun t => role t = u "model") hs ->
  count_role (u "model") hs = List.length hs
  /\ count_role (u "user") hs = 0.
Proof.
  unfold count_role. induction 1 as [|t hs Ht _ (IH1 & IH2)]; [auto|].
  cbn [filter]. rewrite Ht, jsstring_eqb_refl. eval_tokens.
  cbn [List.length]. auto.
Qed.

Lemma step_ledger e w : ledger w -> ledger (step e w).
Proof.
  unfold ledger. intros (H1 & H2 & H3 & H4).
  destruct (step_kind e w) as [(Eh & Er & Ep & Ec)|[S|S]].
  - rewrite Eh, Er, Ep, Ec. auto.
  - destruct S as (m & now & _ & Eh & Er & Ep & Ec).
    rewrite Eh, Er, Ep, Ec, !count_role_app, !length_app.
    unfold count_role in *. unfold user_turn. cbn [filter role].
    eval_tokens. cbn [List.length]. lia.
  - destruct S as (hs & cs & Eh & Ec & Hm & L1 & L2 & L3 & Er & Ep).
    destruct (count_model_turns Hm) as (C1 & C2).
    rewrite Eh, Er, Ec, !count_role_app, !length_app, C1, C2. lia.
Qed.

(** X16: after every sequence of events the record of calls balances: there
    is one request per user turn of the history; the model turns and the
    pending chains together, and the logged errors and the pending chains
    together, are at most the requests; and every call that has ended left a
    model turn or a logged error. *)
Theorem call_ledger es h : ledger (run_events es (init h)).
Proof.
  apply (run_invariant ledger step_ledger). unfold ledger, count_role.
  cbn. lia.
Qed.

Lemma step_history e w :
  exists added, chatHistory (step e w) = chatHistory w ++ added
                /\ Forall sent_turn added.
Proof.
  destruct (step_kind e w) as [(Eh & _)|[S|S]].
  - exists []. rewrite app_nil_r. auto.
  - destruct S as (m & now & Hm & Eh & _). exists [user_turn m].
    split; [exact Eh|]. constructor; [|constructor]. intros _. eauto.
  - destruct S as (hs & cs & Eh & _ & Hm & _). exists hs.
    split; [exact Eh|]. eapply Forall_impl; [|exact Hm].
    intros t Ht Hu. rewrite Ht in Hu. apply u_inj in Hu. discriminate.
Qed.

(** X17: after every sequence of events each turn of role user in the
    history holds exactly one string, which is not empty and neither starts
    nor ends with whitespace. *)
Theorem user_turns_trimmed es h :
  Forall sent_turn (chatHistory (run_events es (init h))).
Proof.
  apply (run_invariant (fun w => Forall sent_turn (chatHistory w))).
  - intros e w Hw. destruct (step_history e w) as (added & -> & Ha).
    apply Forall_app; auto.
  - constructor.
Qed.

Lemma snapshot_grows h added r : snapshot_of h r -> snapshot_of (h ++ added) r.
Proof.
  intros (m & before & after & Er & Hm & ->).
  exists m, before, (after ++ added). repeat split; try assumption.
  rewrite <- app_assoc. reflexivity.
Qed.

(** X18: after every sequence of events each request issued is a POST to
    [/chat] with the JSON content type whose body holds a trimmed message
    and, as history, a prefix of the current history that ends in the user
    turn of that message. *)
Theorem request_snapshots es h :
  let w := run_events es (init h) in
  Forall (snapshot_of (chatHistory w)) (requests w).
Proof.
  cbv zeta.
  apply (run_invariant
           (fun w => Forall (snapshot_of (chatHistory w)) (requests w))).
  - intros e w Hw.
    assert (Hold : forall added,
               Forall (snapshot_of (chatHistory w ++ added)) (requests w)).
    { intros added. eapply Forall_impl; [|exact Hw].
      intros r. apply snapshot_grows. }
    destruct (step_kind e w) as [(Eh & Er & _)|[S|S]].
    + rewrite Eh, Er. exact Hw.
    + destruct S as (m & now & Hm & Eh & Er & _). rewrite Eh, Er.
      apply Forall_app. split; [apply Hold|]. constructor; [|constructor].
      exists m, (chatHistory w), []. auto.
    + destruct S as (hs & cs & Eh & _ & _ & _ & _ & _ & Er & _).
      rewrite Eh, Er. apply Hold.
  - constructor.
Qed.

(** X19: a click on send leaves the state unchanged exactly when the input
    consists of whitespace only. *)
Theorem send_iff_nonblank now w :
  step (SendClick now) w = w <-> forallb is_space (chatInput w) = true.
Proof.
  rewrite <- trim_blank. split.
  - intros E. destruct (trim (chatInput w)) as [|c t] eqn:Et; [reflexivity|].
    assert (H : trim (chatInput w) <> []) by (rewrite Et; discriminate).
    destruct (@send_fields now w H) as (_ & _ & Hh & _).
    rewrite E in Hh. apply (f_equal (@List.length turn)) in Hh.
    rewrite length_app in Hh. cbn in Hh. lia.
  - apply send_blank.
Qed.

(** X20: when the input holds a character that is not whitespace, it splits
    into leading whitespace, a message that neither starts nor ends with
    whitespace, and trailing whitespace, and it is this message that the
    send puts into the history and the transcript. *)
Theorem sendMessage_trims now w :
  forallb is_space (chatInput w) = false ->
  exists a m b,
    chatInput w = a ++ m ++ b
    /\ forallb is_space a = true /\ forallb is_space b = true
    /\ trimmed m = true
    /\ chatHistory (step (SendClick now) w) = chatHistory w ++ [user_turn m]
    /\ chatMessages (step (SendClick now) w)
       = chatMessages w ++ [user_entry m; placeholder now].
Proof.
  intros Hs.
  assert (H : trim (chatInput w) <> []).
  { intros E. apply trim_blank in E. congruence. }
  destruct (trim_split (chatInput w)) as (a & b & E & Ha & Hb).
  destruct (@send_fields now w H) as (Ht & _ & Hh & _).
  exists a, (trim (chatInput w)), b.
  repeat split; try assumption. apply trim_trimmed, H.
Qed.

Lemma sendMessage_trims_witness :
  exists a m b,
    chatInput (init sample_page) = a ++ m ++ b
    /\ forallb is_space a = true /\ forallb is_space b = true
    /\ trimmed m = true
    /\ chatHistory (step (SendClick 5) (init sample_page))
       = chatHistory (init sample_page) ++ [user_turn m]
    /\ chatMessages (step (SendClick 5) (init sample_page))
       = chatMessages (init sample_page) ++ [user_entry m; placeholder 5].
Proof.
  exact (@sendMessage_trims 5 (init sample_page) eq_refl).
Defined.

(** X21: whenever an event changes the transcript, the view ends scrolled to
    the bottom of the new transcript. *)
Theorem view_follows_transcript e w :
  chatMessages (step e w) <> chatMessages w ->
  scrollTop (step e w) = List.length (chatMessages (step e w)).
Proof.
  assert (Hsend : forall now,
             chatMessages (step (SendClick now) w) <> chatMessages w ->
             scrollTop (step (SendClick now) w)
             = List.length (chatMessages (step (SendClick now) w))).
  { intros now Hc. destruct (trim (chatInput w)) as [|c t] eqn:Et.
    - rewrite (send_blank now w Et) in Hc. contradiction.
    - assert (H : trim (chatInput w) <> []) by (rewrite Et; discriminate).
      apply (@send_request now w H). }
  destruct e as [| | |now|key now|v| |n o]; intros Hc.
  - destruct (layout_transcript w) as (Hm & _). contradiction.
  - contradiction Hc. reflexivity.
  - destruct (layout_transcript w) as (_ & Hm). contradiction.
  - apply Hsend, Hc.
  - rewrite keypress_step in *. destruct (jsstring_eqb key (u "Enter")).
    + apply Hsend, Hc.
    + contradiction Hc. reflexivity.
  - contradiction Hc. reflexivity.
  - contradiction Hc. reflexivity.
  - cbn [step] in *. destruct (nth_error (pending w) n) as [id|].
    + apply settle_transcript.
    + contradiction Hc. reflexivity.
Qed.

Lemma view_follows_transcript_witness :
  scrollTop (init sample_page) = 0
  /\ scrollTop (step (SendClick 5) (init sample_page)) = 2.
Proof.
  split; [reflexivity|].
  assert (H : chatMessages (step (SendClick 5) (init sample_page))
              <> chatMessages (init sample_page)) by discriminate.
  rewrite (@view_follows_transcript (SendClick 5) (init sample_page) H).
  reflexivity.
Defined.

Lemma plain_remove_first parse id : forall l,
  map as_made (plain_entries (remove_first parse id l))
  = map as_made (plain_entries l).
Proof.
  induction l as [|e l IH]; [reflexivity|]. cbn [remove_first].
  destruct (has_id id e) eqn:He.
  - unfold has_id in He. unfold plain_entries. cbn [filter].
    destruct (elem_id e); [reflexivity|discriminate].
  - destruct (holds id (dom parse e)).
    + unfold plain_entries. cbn [filter elem_id set_removed].
      destruct (elem_id e); reflexivity.
    + unfold plain_entries in *. cbn [filter].
      destruct (elem_id e); cbn [map]; rewrite IH; reflexivity.
Qed.

Lemma plain_detach id w :
  map as_made (plain_entries (chatMessages (detach id w)))
  = map as_made (plain_entries (chatMessages w)).
Proof.
  unfold detach. cbv zeta. destruct (search _ _ _); cbn; try reflexivity.
  apply plain_remove_first.
Qed.

Lemma plain_app l r :
  plain_entries (l ++ r) = plain_entries l ++ plain_entries r.
Proof. apply filter_app. Qed.

(** X22: no event removes or reorders a transcript entry without id (user
    messages, replies, apologies): the entries without id after an event are
    those before it, each as the script made it, followed by at most one
    new entry. What a lookup can take from such an entry is an element
    inside its content. *)
Theorem transcript_keeps_messages e w :
  exists added,
    map as_made (plain_entries (chatMessages (step e w)))
    = map as_made (plain_entries (chatMessages w)) ++ added
    /\ List.length added <= 1.
Proof.
  assert (Hsame : forall w', chatMessages w' = chatMessages w ->
            exists added,
              map as_made (plain_entries (chatMessages w'))
              = map as_made (plain_entries (chatMessages w)) ++ added
              /\ List.length added <= 1).
  { intros w' ->. exists []. rewrite app_nil_r. auto. }
  assert (Hsend : forall now,
            exists added,
              map as_made (plain_entries (chatMessages (step (SendClick now) w)))
              = map as_made (plain_entries (chatMessages w)) ++ added
              /\ List.length added <= 1).
  { intros now. destruct (trim (chatInput w)) as [|c t] eqn:Et.
    - apply Hsame. rewrite (send_blank now w Et). reflexivity.
    - assert (H : trim (chatInput w) <> []) by (rewrite Et; discriminate).
      destruct (@send_fields now w H) as (-> & _).
      exists [user_entry (trim (chatInput w))]. rewrite plain_app, map_app.
      split; [reflexivity|auto]. }
  destruct e as [| | |now|key now|v| |n o].
  - apply Hsame. apply (layout_transcript w).
  - apply Hsame. reflexivity.
  - apply Hsame. apply (layout_transcript w).
  - apply Hsend.
  - rewrite keypress_step. destruct (jsstring_eqb key (u "Enter")).
    + apply Hsend.
    + apply Hsame. reflexivity.
  - apply Hsame. reflexivity.
  - apply Hsame. reflexivity.
  - cbn [step]. destruct (nth_error (pending w) n) as [id|].
    + set (w0 := set_pending (remove_nth n (pending w)) w).
      destruct (settle_transcript id o w0) as (-> & _).
      exists (map as_made (plain_entries [reply_entry o])).
      rewrite plain_app, map_app. split.
      * f_equal. unfold lookups.
        destruct (removes_twice o); rewrite ?plain_detach; reflexivity.
      * rewrite length_map. unfold plain_entries. cbn [filter].
        destruct (elem_id (reply_entry o)); cbn; lia.
    + apply Hsame. reflexivity.
Qed.

(** X23: when the body parses but holds no string response, the id of the
    call is looked up and removed twice, once by the response callback and
    once by the failure callback, before the apology is added: of two
    entries that carry the id, with no other element of the document that
    carries it before them, both are gone afterwards. One error is
    logged. *)
Theorem malformed_reply_removes_twice id data w A p B q C :
  removes_twice (JsonParsed data) = true ->
  page_clear id (page w) = true ->
  chatMessages w = A ++ p :: B ++ q :: C ->
  transcript_holds (markup_ids w) id A = false -> has_id id p = true ->
  transcript_holds (markup_ids w) id B = false -> has_id id q = true ->
  let w' := exec_handler (settle id (JsonParsed data)) w in
  chatMessages w' = A ++ B ++ C ++ [apology_entry]
  /\ List.length (console w') = S (List.length (console w)).
Proof.
  intros H Hc Hw HA Hp HB Hq. cbv zeta.
  destruct (settle_transcript id (JsonParsed data) w) as (Hm & _).
  rewrite Hm. unfold lookups. rewrite H.
  rewrite (@detach_found id w A p (B ++ q :: C) Hc Hw HA Hp).
  rewrite (@detach_found id (set_chatMessages (A ++ B ++ q :: C) w)
             (A ++ B) q C Hc).
  - split.
    + cbn [chatMessages set_chatMessages]. rewrite <- !app_assoc.
      do 3 f_equal. unfold reply_entry. unfold removes_twice in H.
      destruct (get_response data) as [[]|]; try reflexivity; discriminate.
    + unfold removes_twice in H.
      unfold exec_handler, settle, catch, on_data, bind, removeLoading,
        modify, lift.
      destruct (get_response data) as [[]|]; try discriminate; frame;
        rewrite length_app; cbn; lia.
  - cbn [chatMessages set_chatMessages]. rewrite <- app_assoc. reflexivity.
  - cbn [markup_ids set_chatMessages]. rewrite transcript_holds_app, HA, HB.
    reflexivity.
  - exact Hq.
Qed.

Lemma malformed_reply_removes_twice_witness :
  let w := run_events [SendClick 5; Edit (u "x"); SendClick 5]
                      (init sample_page) in
  let w' := exec_handler (settle (loading_id 5) (JsonParsed (VObj []))) w in
  chatMessages w
  = [user_entry (u "hi"); placeholder 5; user_entry (u "x"); placeholder 5]
  /\ chatMessages w' = [user_entry (u "hi"); user_entry (u "x"); apology_entry].
Proof.
  cbv zeta. split; [reflexivity|].
  assert (Hc : page_clear (loading_id 5)
                 (page (run_events [SendClick 5; Edit (u "x"); SendClick 5]
                          (init sample_page))) = true)
    by reflexivity.
  destruct (@malformed_reply_removes_twice (loading_id 5) (VObj [])
              (run_events [SendClick 5; Edit (u "x"); SendClick 5]
                 (init sample_page))
              [user_entry (u "hi")] (placeholder 5) [user_entry (u "x")]
              (placeholder 5) [] eq_refl Hc eq_refl eq_refl eq_refl eq_refl
              eq_refl) as (Ht & _).
  rewrite Ht. reflexivity.
Defined.
